(** * Top10-Server: the form back end of [server.js]

    A shallow embedding of the Express application: the page lookup, the
    three write endpoints (contact, subscribe, inquiry), the SQLite tables
    they insert into and the notification mail they hand to nodemailer.

    Strings are sequences of code units; the development keeps to code
    units below 256 ([ascii]).  A value read from [req.body] or
    [req.query] is either absent ([undefined]) or a string. *)

From Stdlib Require Import String Ascii List Bool Arith Lia.
Import ListNotations.
Local Open Scope string_scope.

(** ** JavaScript values read from a request *)

Definition field := option string.

(** [!v]: [undefined] and the empty string are the falsy cases. *)
Definition falsy (v : field) : bool :=
  match v with
  | None => true
  | Some EmptyString => true
  | Some (String _ _) => false
  end.

(** String coercion, as applied by [RegExp.prototype.test] and by a
    property access [obj[key]]. *)
Definition ToString (v : field) : string :=
  match v with
  | None => "undefined"
  | Some s => s
  end.

(** [a || b] on an optional string and a default. *)
Definition or_default (v : field) (d : string) : string :=
  if falsy v then d else ToString v.

Definition newline : string := String (ascii_of_nat 10) EmptyString.

(** ** Regular expressions *)

Module Regex.

Inductive regex : Type :=
| Never
| Epsilon
| Class (p : ascii -> bool)
| Seq (r1 r2 : regex)
| Alt (r1 r2 : regex)
| Star (r : regex).

Definition Plus (r : regex) : regex := Seq r (Star r).

Definition Chr (c : ascii) : regex := Class (Ascii.eqb c).

Fixpoint nullable (r : regex) : bool :=
  match r with
  | Never => false
  | Epsilon => true
  | Class _ => false
  | Seq r1 r2 => nullable r1 && nullable r2
  | Alt r1 r2 => nullable r1 || nullable r2
  | Star _ => true
  end.

(** The residual of [r] after reading the code unit [c]. *)
Fixpoint deriv (c : ascii) (r : regex) : regex :=
  match r with
  | Never => Never
  | Epsilon => Never
  | Class p => if p c then Epsilon else Never
  | Seq r1 r2 =>
      if nullable r1
      then Alt (Seq (deriv c r1) r2) (deriv c r2)
      else Seq (deriv c r1) r2
  | Alt r1 r2 => Alt (deriv c r1) (deriv c r2)
  | Star r1 => Seq (deriv c r1) (Star r1)
  end.

(** Does a match of [r] start at the head of [s]? *)
Fixpoint match_here (r : regex) (s : string) : bool :=
  nullable r ||
  match s with
  | EmptyString => false
  | String c s' => match_here (deriv c r) s'
  end.

(** [r.test(s)] without anchors nor flags: a match may start at any
    index of [s]. *)
Fixpoint test (r : regex) (s : string) : bool :=
  match_here r s ||
  match s with
  | EmptyString => false
  | String _ s' => test r s'
  end.

(** The language of a regular expression. *)
Inductive matches : regex -> string -> Prop :=
| m_epsilon : matches Epsilon ""
| m_class p c : p c = true -> matches (Class p) (String c "")
| m_seq r1 r2 s1 s2 :
    matches r1 s1 -> matches r2 s2 -> matches (Seq r1 r2) (s1 ++ s2)
| m_alt_l r1 r2 s : matches r1 s -> matches (Alt r1 r2) s
| m_alt_r r1 r2 s : matches r2 s -> matches (Alt r1 r2) s
| m_star_nil r : matches (Star r) ""
| m_star_cons r s1 s2 :
    matches r s1 -> matches (Star r) s2 -> matches (Star r) (s1 ++ s2).

End Regex.

Import Regex.

(** [\s] on code units below 256: TAB, LF, VT, FF, CR, SPACE and
    NO-BREAK SPACE. *)
Definition is_space (c : ascii) : bool :=
  let n := nat_of_ascii c in
  ((9 <=? n)%nat && (n <=? 13)%nat) || (n =? 32)%nat || (n =? 160)%nat.

(** [\S] *)
Definition non_space (c : ascii) : bool := negb (is_space c).

(** [/\S+@\S+\.\S+/] *)
Definition email_re : regex :=
  Seq (Plus (Class non_space))
      (Seq (Chr "@")
           (Seq (Plus (Class non_space))
                (Seq (Chr ".") (Plus (Class non_space))))).

(** A non-empty run of non-whitespace code units. *)
Fixpoint all_non_space (s : string) : bool :=
  match s with
  | EmptyString => true
  | String c s' => non_space c && all_non_space s'
  end.

Definition run (s : string) : Prop := s <> "" /\ all_non_space s = true.

(** The shape the specification asks of an address: somewhere in it a
    run, an at sign, a run, a dot, a run. *)
Definition email_shape (s : string) : Prop :=
  exists pre u d t post,
    s = pre ++ u ++ "@" ++ d ++ "." ++ t ++ post /\ run u /\ run d /\ run t.

Fixpoint contains (c : ascii) (s : string) : bool :=
  match s with
  | EmptyString => false
  | String x s' => Ascii.eqb c x || contains c s'
  end.

(** The address in [v] has no occurrence of [c] (an absent address has
    none). *)
Definition lacks (c : ascii) (v : field) : Prop :=
  match v with
  | None => True
  | Some s => contains c s = false
  end.

(** ** Input sanitizer *)

Record SanitizeOptions : Type := {
  allowedTags : list string;
  allowedAttributes : list (string * list string)
}.

(** *** The package on simple markup *)

(** The white space of the HTML tokenizer: SPACE, TAB, LF, FF, CR. *)
Definition html_space (c : ascii) : bool :=
  let n := nat_of_ascii c in
  (n =? 32)%nat || (n =? 9)%nat || (n =? 10)%nat || (n =? 12)%nat
  || (n =? 13)%nat.

Definition is_alpha (c : ascii) : bool :=
  let n := nat_of_ascii c in
  ((65 <=? n)%nat && (n <=? 90)%nat) || ((97 <=? n)%nat && (n <=? 122)%nat).

Definition is_digit (c : ascii) : bool :=
  let n := nat_of_ascii c in
  (48 <=? n)%nat && (n <=? 57)%nat.

(** Tag names are compared in lower case. *)
Definition lower (c : ascii) : ascii :=
  let n := nat_of_ascii c in
  if (65 <=? n)%nat && (n <=? 90)%nat then ascii_of_nat (n + 32) else c.

Definition double_quote : ascii := ascii_of_nat 34.

Definition attribute_char (c : ascii) : bool :=
  is_alpha c || is_digit c || Ascii.eqb c "-" || Ascii.eqb c "_"
  || Ascii.eqb c ":".

Definition unquoted_char (c : ascii) : bool :=
  attribute_char c || Ascii.eqb c "." || Ascii.eqb c "/" || Ascii.eqb c "#".

(** Where the scan of the input stands. *)
Inductive scan : Type :=
| Text
| Ampersand                                   (* after [&] in text *)
| TagOpen                                     (* after [<] *)
| OpenName (name : string)                    (* in the name of a start tag *)
| BeforeAttribute (name : string)
| AttributeName (name : string)
| AfterAttributeName (name : string)
| BeforeValue (name : string)                 (* after [=] *)
| DoubleQuoted (name : string)
| SingleQuoted (name : string)
| Unquoted (name : string)
| AfterValue (name : string)                  (* after a closing quote *)
| CloseOpen                                   (* after [</] *)
| CloseName
| AfterCloseName
| Raw (name : string)                         (* inside [script] or [style] *)
| RawClose (name : string) (expected : string).

(** The elements whose text content goes with the tag. *)
Definition content_dropped (name : string) : bool :=
  String.eqb name "script" || String.eqb name "style".

(** Elements left out of the model: what is kept of their content
    differs between releases of the package and of its parser. *)
Definition not_modelled (name : string) : bool :=
  existsb (String.eqb name)
    [ "title"; "textarea"; "option"; "noscript"; "xmp"; "iframe";
      "noembed"; "noframes"; "plaintext" ].

(** The [>] that ends the start tag of [name]. *)
Definition open_tag_end (name : string) : option (scan * string) :=
  if content_dropped name then Some (Raw name, "")
  else if not_modelled name then None
  else Some (Text, "").

(** One code unit: the next state and what is written to the result, or
    [None] when the input leaves the modelled fragment. *)
Definition step (st : scan) (c : ascii) : option (scan * string) :=
  match st with
  | Text =>
      if Ascii.eqb c "<" then Some (TagOpen, "")
      else if Ascii.eqb c ">" then Some (Text, "&gt;")
      else if Ascii.eqb c "&" then Some (Ampersand, "")
      else if Ascii.eqb c double_quote then None
      else Some (Text, String c "")
  | Ampersand =>
      if html_space c then Some (Text, "&amp;" ++ String c "") else None
  | TagOpen =>
      if html_space c then Some (Text, "&lt;" ++ String c "")
      else if is_alpha c then Some (OpenName (String (lower c) ""), "")
      else if Ascii.eqb c "/" then Some (CloseOpen, "")
      else None
  | OpenName name =>
      if is_alpha c || is_digit c
      then Some (OpenName (name ++ String (lower c) ""), "")
      else if html_space c then Some (BeforeAttribute name, "")
      else if Ascii.eqb c ">" then open_tag_end name
      else None
  | BeforeAttribute name =>
      if html_space c then Some (BeforeAttribute name, "")
      else if Ascii.eqb c ">" then open_tag_end name
      else if is_alpha c then Some (AttributeName name, "")
      else None
  | AttributeName name =>
      if attribute_char c then Some (AttributeName name, "")
      else if Ascii.eqb c "=" then Some (BeforeValue name, "")
      else if html_space c then Some (AfterAttributeName name, "")
      else if Ascii.eqb c ">" then open_tag_end name
      else None
  | AfterAttributeName name =>
      if html_space c then Some (AfterAttributeName name, "")
      else if Ascii.eqb c "=" then Some (BeforeValue name, "")
      else if Ascii.eqb c ">" then open_tag_end name
      else if is_alpha c then Some (AttributeName name, "")
      else None
  | BeforeValue name =>
      if Ascii.eqb c double_quote then Some (DoubleQuoted name, "")
      else if Ascii.eqb c "'" then Some (SingleQuoted name, "")
      else if unquoted_char c then Some (Unquoted name, "")
      else None
  | DoubleQuoted name =>
      if Ascii.eqb c double_quote then Some (AfterValue name, "")
      else if Ascii.eqb c "&" then None
      else Some (DoubleQuoted name, "")
  | SingleQuoted name =>
      if Ascii.eqb c "'" then Some (AfterValue name, "")
      else if Ascii.eqb c "&" then None
      else Some (SingleQuoted name, "")
  | Unquoted name =>
      if unquoted_char c then Some (Unquoted name, "")
      else if html_space c then Some (BeforeAttribute name, "")
      else if Ascii.eqb c ">" then open_tag_end name
      else None
  | AfterValue name =>
      if html_space c then Some (BeforeAttribute name, "")
      else if Ascii.eqb c ">" then open_tag_end name
      else None
  | CloseOpen =>
      if is_alpha c then Some (CloseName, "") else None
  | CloseName =>
      if is_alpha c || is_digit c then Some (CloseName, "")
      else if html_space c then Some (AfterCloseName, "")
      else if Ascii.eqb c ">" then Some (Text, "")
      else None
  | AfterCloseName =>
      if html_space c then Some (AfterCloseName, "")
      else if Ascii.eqb c ">" then Some (Text, "")
      else None
  | Raw name =>
      if Ascii.eqb c "<" then Some (RawClose name ("/" ++ name), "")
      else if Ascii.eqb c "&" then None
      else Some (Raw name, "")
  | RawClose name expected =>
      match expected with
      | EmptyString => if Ascii.eqb c ">" then Some (Text, "") else None
      | String x expected' =>
          if Ascii.eqb (lower c) x then Some (RawClose name expected', "")
          else None
      end
  end.

Fixpoint scan_from (st : scan) (s : string) : option string :=
  match s with
  | EmptyString =>
      match st with
      | Text => Some EmptyString
      | _ => None
      end
  | String c s' =>
      match step st c with
      | Some (st', out) =>
          match scan_from st' s' with
          | Some rest => Some (out ++ rest)
          | None => None
          end
      | None => None
      end
  end.


(** Modelled on the documented behaviour of the [sanitize-html] package,
    which [server.js] requires and which is not part of the sources, for
    the one call the server makes (both allow-lists empty).  The result
    is given for a fragment of the inputs and is [None] outside it:
    - text: [>] is written [&gt;]; [<] and [&] are written [&lt;] and
      [&amp;] when white space follows; a double quote, and [<] or [&]
      before anything else than what is listed here, leave the fragment;
    - start tags [<name attributes>] and end tags [</name>], names made
      of letters and digits, attribute values quoted or plain: removed,
      the text between them kept;
    - [script] and [style] elements: removed together with their
      content;
    - comments, declarations, character references, self-closing
      syntax, unterminated tags and the elements of [not_modelled]
      leave the fragment. *)
Definition sanitize_markup (input : string) : option string :=
  scan_from Text input.


(** The sanitizer used to run the handlers on concrete requests:
    [sanitize_markup] on the fragment; outside it, where the package is
    not modelled, the empty string stands in for its result. *)
Definition sanitizeHtml_model (input : string) (opts : SanitizeOptions) : string :=
  match sanitize_markup input with
  | Some output => output
  | None => EmptyString
  end.

(** ** Page route table *)

(** What a property read on the [routes] object yields. *)
Inductive property : Type :=
| Undefined
| Descriptor (component : string)   (* an own entry [{ component }] *)
| Inherited (member : string).      (* a member of [Object.prototype] *)

(** The own properties of the object literal [routes]. *)
Definition routes : list (string * string) :=
  [ ("/", "Homepage");
    ("/products", "Products");
    ("/contact", "ContactUs");
    ("/aboutUs", "AboutUs") ].

(** The object literal inherits from [Object.prototype]; these are the
    names a read finds there when the object has no own property. *)
Definition Object_prototype : list string :=
  [ "constructor"; "__proto__"; "hasOwnProperty"; "isPrototypeOf";
    "propertyIsEnumerable"; "toLocaleString"; "toString"; "valueOf";
    "__defineGetter__"; "__defineSetter__"; "__lookupGetter__";
    "__lookupSetter__" ].

Fixpoint own (key : string) (o : list (string * string)) : option string :=
  match o with
  | [] => None
  | (k, v) :: o' => if String.eqb key k then Some v else own key o'
  end.

Definition mem (key : string) (l : list string) : bool :=
  existsb (String.eqb key) l.

(** [routes[path]] *)
Definition routes_get (path : field) : property :=
  let key := ToString path in
  match own key routes with
  | Some c => Descriptor c
  | None => if mem key Object_prototype then Inherited key else Undefined
  end.

(** Truthiness of a property read: objects and functions are truthy. *)
Definition defined (p : property) : bool :=
  match p with
  | Undefined => false
  | _ => true
  end.

(** ** Responses *)

Inductive json : Type :=
| JMessage (message : string)       (* [{ message }] *)
| JError (error : string)           (* [{ error }] *)
| JComponent (component : string)   (* [{ component }] *)
| JMember (name : string).          (* serialisation of an inherited member *)

Record Response : Type := {
  status : nat;
  body : json
}.

Definition json_of_property (p : property) : json :=
  match p with
  | Descriptor c => JComponent c
  | Inherited m => JMember m
  | Undefined => JMember "undefined"
  end.

(** ** Persistence store *)

Record contact_row : Type := {
  c_id : nat;
  c_name : string;
  c_email : string;
  c_message : string;
  c_created_at : nat
}.

Record subscription_row : Type := {
  s_id : nat;
  s_email : string;
  s_created_at : nat
}.

Record inquiry_row : Type := {
  i_id : nat;
  i_name : string;
  i_email : string;
  i_product : string;
  i_message : string;
  i_created_at : nat
}.

(** The three tables of [database.db]; each [_seq] is the largest id the
    table has handed out ([AUTOINCREMENT]). *)
Record database : Type := {
  contacts : list contact_row;
  contacts_seq : nat;
  subscriptions : list subscription_row;
  subscriptions_seq : nat;
  inquiries : list inquiry_row;
  inquiries_seq : nat
}.

(** What an [INSERT] does when it meets a uniqueness conflict. *)
Inductive conflict : Type := Abort | Ignore.

(** The statements the handlers pass to [db.run], with their bound
    parameters. *)
Inductive statement : Type :=
| InsertContact (name email message : string)
| InsertSubscription (policy : conflict) (email : string)
| InsertInquiry (name email product message : string).

Inductive outcome : Type :=
| Done (d : database)
| Failed (message : string).

Definition subscribed (email : string) (rows : list subscription_row) : bool :=
  existsb (fun r => String.eqb email (s_email r)) rows.

(** Runs one statement at time [now].  The key of a new row is allocated
    before the uniqueness check, so an [INSERT OR IGNORE] that meets a
    duplicate stores nothing and still uses up a key. *)
Definition exec (q : statement) (now : nat) (d : database) : outcome :=
  match q with
  | InsertContact name email message =>
      let id := S (contacts_seq d) in
      Done {| contacts := contacts d ++
                [ {| c_id := id; c_name := name; c_email := email;
                     c_message := message; c_created_at := now |} ];
              contacts_seq := id;
              subscriptions := subscriptions d;
              subscriptions_seq := subscriptions_seq d;
              inquiries := inquiries d;
              inquiries_seq := inquiries_seq d |}
  | InsertSubscription policy email =>
      if subscribed email (subscriptions d)
      then match policy with
           | Ignore =>
               Done {| contacts := contacts d;
                       contacts_seq := contacts_seq d;
                       subscriptions := subscriptions d;
                       subscriptions_seq := S (subscriptions_seq d);
                       inquiries := inquiries d;
                       inquiries_seq := inquiries_seq d |}
           | Abort => Failed "UNIQUE constraint failed: subscriptions.email"
           end
      else
        let id := S (subscriptions_seq d) in
        Done {| contacts := contacts d;
                contacts_seq := contacts_seq d;
                subscriptions := subscriptions d ++
                  [ {| s_id := id; s_email := email; s_created_at := now |} ];
                subscriptions_seq := id;
                inquiries := inquiries d;
                inquiries_seq := inquiries_seq d |}
  | InsertInquiry name email product message =>
      let id := S (inquiries_seq d) in
      Done {| contacts := contacts d;
              contacts_seq := contacts_seq d;
              subscriptions := subscriptions d;
              subscriptions_seq := subscriptions_seq d;
              inquiries := inquiries d ++
                [ {| i_id := id; i_name := name; i_email := email;
                     i_product := product; i_message := message;
                     i_created_at := now |} ];
              inquiries_seq := id |}
  end.

(** The statements that cannot fail on a constraint: all but a plain
    [INSERT] into [subscriptions]. *)
Definition never_aborts (q : statement) : Prop :=
  match q with
  | InsertSubscription Abort _ => False
  | _ => True
  end.

(** Number of subscription rows that carry [email]. *)
Definition subscription_count (email : string) (d : database) : nat :=
  List.length (filter (fun r => String.eqb email (s_email r)) (subscriptions d)).

(** The [UNIQUE] constraint on [subscriptions.email]. *)
Definition unique_emails (d : database) : Prop :=
  NoDup (map s_email (subscriptions d)).

(** ** Notification mail *)

Record mail : Type := {
  from : field;
  to : string;
  subject : string;
  text : string
}.

(** ** The world a request runs in *)

(** [db] is the database file, [outbox] the messages handed to
    [transporter.sendMail] so far, [sent] the response already written to
    the current request's [res], [uncaught] the exceptions that escaped a
    callback or the handler. *)
Record world : Type := {
  db : database;
  outbox : list mail;
  sent : option Response;
  uncaught : list string
}.

Definition with_db (d : database) (w : world) : world :=
  {| db := d; outbox := outbox w; sent := sent w; uncaught := uncaught w |}.

Definition with_outbox (o : list mail) (w : world) : world :=
  {| db := db w; outbox := o; sent := sent w; uncaught := uncaught w |}.

Definition with_sent (r : option Response) (w : world) : world :=
  {| db := db w; outbox := outbox w; sent := r; uncaught := uncaught w |}.

Definition with_uncaught (u : list string) (w : world) : world :=
  {| db := db w; outbox := outbox w; sent := sent w; uncaught := u |}.

(** A computation either returns or throws an [Error] with a message. *)
Inductive completion (A : Type) : Type :=
| Normal (a : A)
| Throw (message : string).

Arguments Normal {A} a.
Arguments Throw {A} message.

Definition M (A : Type) : Type := world -> completion A * world.

Definition ret {A : Type} (a : A) : M A := fun w => (Normal a, w).

Definition bind {A B : Type} (m : M A) (k : A -> M B) : M B :=
  fun w =>
    match m w with
    | (Normal a, w') => k a w'
    | (Throw msg, w') => (Throw msg, w')
    end.

Definition throw {A : Type} (msg : string) : M A := fun w => (Throw msg, w).

(** [try { body } catch (error) { handler error.message }] *)
Definition try_catch {A : Type} (body : M A) (handler : string -> M A) : M A :=
  fun w =>
    match body w with
    | (Normal a, w') => (Normal a, w')
    | (Throw msg, w') => handler msg w'
    end.

Declare Scope js_scope.
Delimit Scope js_scope with js.
Notation "x <- m ;; k" := (bind m (fun x => k))
  (at level 61, m at next level, right associativity) : js_scope.
Notation "m ;; k" := (bind m (fun _ => k))
  (at level 61, right associativity) : js_scope.
Local Open Scope js_scope.

Definition ERR_HTTP_HEADERS_SENT : string :=
  "Cannot set headers after they are sent to the client".

(** [res.status(code).json(payload)]: the first call writes the response;
    a later one on the same [res] throws. *)
Definition res_json (code : nat) (payload : json) : M unit :=
  fun w =>
    match sent w with
    | None => (Normal tt, with_sent (Some {| status := code; body := payload |}) w)
    | Some _ => (Throw ERR_HTTP_HEADERS_SENT, w)
    end.

(** [transporter.sendMail(mailOptions)]: the message is handed to the
    transport; the promise settles later. *)
Definition sendMail (m : mail) : M unit :=
  fun w => (Normal tt, with_outbox (outbox w ++ [m]) w).

(** [await promise], once the promise has settled. *)
Definition await (failure : option string) : M unit :=
  match failure with
  | None => ret tt
  | Some msg => throw msg
  end.

(** What a write handler leaves behind when it suspends at its [await]:
    the statement queued by [db.run] with its callback, and the rest of
    the handler, to be resumed with the outcome of [sendMail]. *)
Record pending : Type := {
  query : statement;
  on_insert : option string -> M unit;
  on_mail : option string -> M unit
}.

(** ** Requests *)

(** The requests as a handler sees them: the body has been parsed and
    its fields are absent or strings.  A body that [express.json]
    refuses, a preflight request that [cors] answers and field values of
    another type than string are not modelled. *)
Inductive request : Type :=
| GetPage (path : field)
| PostContact (name email message : field)
| PostSubscribe (email : field)
| PostInquiry (name email product message : field)
| Other.

Definition is_write (r : request) : bool :=
  match r with
  | PostContact _ _ _ | PostSubscribe _ | PostInquiry _ _ _ _ => true
  | _ => false
  end.

(** The required fields of each write endpoint. *)
Definition required (r : request) : list field :=
  match r with
  | PostContact name email message => [name; email; message]
  | PostSubscribe email => [email]
  | PostInquiry name email product message => [name; email; product; message]
  | _ => []
  end.

Definition email_of (r : request) : field :=
  match r with
  | PostContact _ email _ | PostSubscribe email | PostInquiry _ email _ _ => email
  | _ => None
  end.

(** A write request that gets past both checks of its handler. *)
Definition passes_validation (r : request) : bool :=
  is_write r && forallb (fun v => negb (falsy v)) (required r)
  && test email_re (ToString (email_of r)).

(** The message of the 200 response of each write endpoint. *)
Definition success_message (r : request) : string :=
  match r with
  | PostContact _ _ _ => "Contact form submitted successfully"
  | PostSubscribe _ => "Subscription successful"
  | PostInquiry _ _ _ _ => "Inquiry submitted successfully"
  | _ => ""
  end.

(** The message of the 500 response sent by the callback of [db.run]. *)
Definition save_error (r : request) : string :=
  match r with
  | PostContact _ _ _ => "Failed to save contact"
  | PostSubscribe _ => "Failed to save subscription"
  | PostInquiry _ _ _ _ => "Failed to save inquiry"
  | _ => ""
  end.

(** The three handlers pass [db.run] the same callback and share the
    same [try]/[catch] up to these two messages; the two definitions
    below name that common shape. *)
Definition insert_callback (msg : string) (err : option string) : M unit :=
  match err with
  | Some _ => res_json 500 (JError msg)
  | None => ret tt
  end.

Definition resume (msg : string) (failure : option string) : M unit :=
  try_catch
    (await failure ;; res_json 200 (JMessage msg))
    (fun m => res_json 500 (JError ("Failed to send email: " ++ m))).

(** The database right after the three [CREATE TABLE IF NOT EXISTS], and
    the world of a server that has served nothing yet. *)
Definition empty_database : database :=
  {| contacts := []; contacts_seq := 0;
     subscriptions := []; subscriptions_seq := 0;
     inquiries := []; inquiries_seq := 0 |}.

Definition initial_world : world :=
  {| db := empty_database; outbox := []; sent := None; uncaught := [] |}.

(** The response the client of the current request has received. *)
Definition answered (code : nat) (payload : json) (w : world) : Prop :=
  sent w = Some {| status := code; body := payload |}.

(** ** The environment of a request *)

(** Which of the two operations a suspended handler waits on completes
    first is up to the environment, as are their outcomes. *)
Inductive order : Type := InsertFirst | MailFirst.

Record env : Type := {
  storage_failure : option string;   (* the database cannot run the statement *)
  smtp_failure : option string;      (* the relay rejects or cannot be reached *)
  first : order;
  now : nat
}.

(** ** Handlers *)

Section Server.

(** The [sanitize-html] package and the two environment variables the
    handlers read. *)
Variable sanitizeHtml : string -> SanitizeOptions -> string.
Variable EMAIL_USER : field.
Variable EMAIL_TO : field.

Definition sanitizeInput (input : string) : string :=
  sanitizeHtml input {| allowedTags := []; allowedAttributes := [] |}.

(** [app.get("/api/page")] *)
Definition page (path : field) : M (option pending) :=
  if defined (routes_get path)
  then res_json 200 (json_of_property (routes_get path)) ;; ret None
  else res_json 404 (JError "Page not found") ;; ret None.

(** [app.post("/api/contact")] *)
Definition contact (name email message : field) : M (option pending) :=
  if falsy name || falsy email || falsy message
  then res_json 400 (JError "All fields are required") ;; ret None
  else if negb (test email_re (ToString email))
  then res_json 400 (JError "Invalid email") ;; ret None
  else
    let sanitizedName := sanitizeInput (ToString name) in
    let sanitizedEmail := sanitizeInput (ToString email) in
    let sanitizedMessage := sanitizeInput (ToString message) in
    let mailOptions :=
      {| from := EMAIL_USER;
         to := or_default EMAIL_TO "zuby@top10enterprise.com";
         subject := "New Contact Form Submission";
         text := "Name: " ++ sanitizedName ++ newline ++
                 "Email: " ++ sanitizedEmail ++ newline ++
                 "Message: " ++ sanitizedMessage |} in
    sendMail mailOptions ;;
    ret (Some
      {| query := InsertContact sanitizedName sanitizedEmail sanitizedMessage;
         on_insert := fun err =>
           match err with
           | Some _ => res_json 500 (JError "Failed to save contact")
           | None => ret tt
           end;
         on_mail := fun failure =>
           try_catch
             (await failure ;;
              res_json 200 (JMessage "Contact form submitted successfully"))
             (fun msg => res_json 500 (JError ("Failed to send email: " ++ msg)))
      |}).

(** [app.post("/api/subscribe")] *)
Definition subscribe (email : field) : M (option pending) :=
  if falsy email
  then res_json 400 (JError "Email is required") ;; ret None
  else if negb (test email_re (ToString email))
  then res_json 400 (JError "Invalid email") ;; ret None
  else
    let sanitizedEmail := sanitizeInput (ToString email) in
    let mailOptions :=
      {| from := EMAIL_USER;
         to := or_default EMAIL_TO "zuby@top10enterprise.com";
         subject := "New Email Subscription";
         text := "Email: " ++ sanitizedEmail |} in
    sendMail mailOptions ;;
    ret (Some
      {| query := InsertSubscription Ignore sanitizedEmail;
         on_insert := fun err =>
           match err with
           | Some _ => res_json 500 (JError "Failed to save subscription")
           | None => ret tt
           end;
         on_mail := fun failure =>
           try_catch
             (await failure ;;
              res_json 200 (JMessage "Subscription successful"))
             (fun msg => res_json 500 (JError ("Failed to send email: " ++ msg)))
      |}).

(** [app.post("/api/inquiry")] *)
Definition inquiry (name email product message : field) : M (option pending) :=
  if falsy name || falsy email || falsy product || falsy message
  then res_json 400 (JError "All fields are required") ;; ret None
  else if negb (test email_re (ToString email))
  then res_json 400 (JError "Invalid email") ;; ret None
  else
    let sanitizedName := sanitizeInput (ToString name) in
    let sanitizedEmail := sanitizeInput (ToString email) in
    let sanitizedProduct := sanitizeInput (ToString product) in
    let sanitizedMessage := sanitizeInput (ToString message) in
    let mailOptions :=
      {| from := EMAIL_USER;
         to := or_default EMAIL_TO "zuby@top10enterprise.com";
         subject := "New Inquiry for " ++ sanitizedProduct;
         text := "Name: " ++ sanitizedName ++ newline ++
                 "Email: " ++ sanitizedEmail ++ newline ++
                 "Product: " ++ sanitizedProduct ++ newline ++
                 "Message: " ++ sanitizedMessage |} in
    sendMail mailOptions ;;
    ret (Some
      {| query := InsertInquiry sanitizedName sanitizedEmail
                                sanitizedProduct sanitizedMessage;
         on_insert := fun err =>
           match err with
           | Some _ => res_json 500 (JError "Failed to save inquiry")
           | None => ret tt
           end;
         on_mail := fun failure =>
           try_catch
             (await failure ;;
              res_json 200 (JMessage "Inquiry submitted successfully"))
             (fun msg => res_json 500 (JError ("Failed to send email: " ++ msg)))
      |}).

(** The catch-all [app.use] at the end of the middleware chain. *)
Definition not_found : M (option pending) :=
  res_json 404 (JError "Route not found") ;; ret None.

(** The synchronous part of the handler a request is routed to. *)
Definition handler (r : request) : M (option pending) :=
  match r with
  | GetPage path => page path
  | PostContact name email message => contact name email message
  | PostSubscribe email => subscribe email
  | PostInquiry name email product message => inquiry name email product message
  | Other => not_found
  end.

(** *** The event loop *)

(** Runs a callback to its end; an exception nobody catches is recorded. *)
Definition settle {A : Type} (c : M A) (w : world) : world :=
  match c w with
  | (Normal _, w') => w'
  | (Throw msg, w') => with_uncaught (uncaught w' ++ [msg]) w'
  end.

(** The queued statement runs and its callback is called. *)
Definition complete_insert (p : pending) (e : env) (w : world) : world :=
  match storage_failure e with
  | Some msg => settle (on_insert p (Some msg)) w
  | None =>
      match exec (query p) (now e) (db w) with
      | Done d => settle (on_insert p None) (with_db d w)
      | Failed msg => settle (on_insert p (Some msg)) w
      end
  end.

(** The [sendMail] promise settles and the handler resumes. *)
Definition complete_mail (p : pending) (e : env) (w : world) : world :=
  settle (on_mail p (smtp_failure e)) w.

(** One request from arrival to quiescence: a fresh [res], the handler
    up to its [await], then the two completions in the order the
    environment picks. *)
Definition serve (r : request) (e : env) (w : world) : world :=
  match handler r (with_sent None w) with
  | (Normal (Some p), w1) =>
      match first e with
      | InsertFirst => complete_mail p e (complete_insert p e w1)
      | MailFirst => complete_insert p e (complete_mail p e w1)
      end
  | (Normal None, w1) => w1
  | (Throw msg, w1) => with_uncaught (uncaught w1 ++ [msg]) w1
  end.

(** The world at the moment the handler suspends: [db.run] and
    [sendMail] have been called, neither has completed. *)
Definition suspended (r : request) (w : world) : world :=
  snd (handler r (with_sent None w)).

End Server.

(** ** Requests one after the other *)

(** The statement and the message a write handler prepares before it
    suspends, as functions of the request. *)
Definition statement_of (sanitizeHtml : string -> SanitizeOptions -> string)
    (r : request) : option statement :=
  let san v := sanitizeInput sanitizeHtml (ToString v) in
  match r with
  | PostContact name email message =>
      Some (InsertContact (san name) (san email) (san message))
  | PostSubscribe email =>
      Some (InsertSubscription Ignore (san email))
  | PostInquiry name email product message =>
      Some (InsertInquiry (san name) (san email) (san product) (san message))
  | _ => None
  end.

Definition mail_of (sanitizeHtml : string -> SanitizeOptions -> string)
    (EMAIL_USER EMAIL_TO : field) (r : request) : option mail :=
  let san v := sanitizeInput sanitizeHtml (ToString v) in
  let envelope subject text :=
    {| from := EMAIL_USER;
       to := or_default EMAIL_TO "zuby@top10enterprise.com";
       subject := subject;
       text := text |} in
  match r with
  | PostContact name email message =>
      Some (envelope "New Contact Form Submission"
              ("Name: " ++ san name ++ newline ++
               "Email: " ++ san email ++ newline ++
               "Message: " ++ san message))
  | PostSubscribe email =>
      Some (envelope "New Email Subscription" ("Email: " ++ san email))
  | PostInquiry name email product message =>
      Some (envelope ("New Inquiry for " ++ san product)
              ("Name: " ++ san name ++ newline ++
               "Email: " ++ san email ++ newline ++
               "Product: " ++ san product ++ newline ++
               "Message: " ++ san message))
  | _ => None
  end.

(** The 400 message of the first check of each write handler. *)
Definition missing_message (r : request) : string :=
  match r with
  | PostSubscribe _ => "Email is required"
  | _ => "All fields are required"
  end.

(** The response of a request whose handler answers before any [await]:
    the page lookup, the catch-all, and a write request that fails the
    first or the second check. *)
Definition immediate_reply (r : request) : Response :=
  match r with
  | GetPage path =>
      if defined (routes_get path)
      then {| status := 200; body := json_of_property (routes_get path) |}
      else {| status := 404; body := JError "Page not found" |}
  | Other => {| status := 404; body := JError "Route not found" |}
  | _ =>
      {| status := 400;
         body := JError (if existsb falsy (required r)
                         then missing_message r else "Invalid email") |}
  end.

(** A run of the server on requests that arrive one after the other,
    each with the environment it meets. *)
Fixpoint serve_all (sanitizeHtml : string -> SanitizeOptions -> string)
    (EMAIL_USER EMAIL_TO : field) (rs : list (request * env)) (w : world)
  : world :=
  match rs with
  | [] => w
  | (r, e) :: rs' =>
      serve_all sanitizeHtml EMAIL_USER EMAIL_TO rs'
        (serve sanitizeHtml EMAIL_USER EMAIL_TO r e w)
  end.

(** The primary keys of the three tables: pairwise distinct within a
    table and none above the table's sequence. *)
Definition keys_fresh (d : database) : Prop :=
  (NoDup (map c_id (contacts d)) /\
   Forall (fun k => k <= contacts_seq d) (map c_id (contacts d))) /\
  (NoDup (map s_id (subscriptions d)) /\
   Forall (fun k => k <= subscriptions_seq d) (map s_id (subscriptions d))) /\
  (NoDup (map i_id (inquiries d)) /\
   Forall (fun k => k <= inquiries_seq d) (map i_id (inquiries d))).

(** ** Cross-origin configuration *)

(** [s.split(sep)] for a separator of one code unit. *)
Fixpoint split (sep : ascii) (s : string) : list string :=
  match s with
  | EmptyString => [EmptyString]
  | String c s' =>
      if Ascii.eqb c sep then EmptyString :: split sep s'
      else match split sep s' with
           | [] => [String c EmptyString]
           | piece :: pieces => String c piece :: pieces
           end
  end.

(** [pieces.join(sep)] *)
Fixpoint join (sep : string) (pieces : list string) : string :=
  match pieces with
  | [] => EmptyString
  | [piece] => piece
  | piece :: pieces' => piece ++ sep ++ join sep pieces'
  end.

Definition default_origins : list string :=
  [ "http://localhost:5173";
    "https://www.top10enterprise.com";
    "https://api.top10enterprise.com" ].

(** The [origin] option handed to [cors]:
    [ALLOWED_ORIGINS ? ALLOWED_ORIGINS.split(",") : [...]]. *)
Definition cors_origin (ALLOWED_ORIGINS : field) : list string :=
  if falsy ALLOWED_ORIGINS then default_origins
  else split "," (ToString ALLOWED_ORIGINS).

(** ** The connectivity script *)

(** [testEmail]: [transporter.verify()], then one [sendMail], both
    awaited inside one [try]; the [catch] only logs. *)
Definition testEmail (EMAIL_USER : field)
    (verify_failure send_failure : option string) : M unit :=
  try_catch
    (await verify_failure ;;
     sendMail {| from := EMAIL_USER;
                 to := "test@example.com";
                 subject := "Test Email from Top10Enterprise";
                 text := "This is a test email." |} ;;
     await send_failure)
    (fun _ => ret tt).

(** * Facts *)

(** ** Strings *)

Lemma append_assoc (a b c : string) : (a ++ b) ++ c = a ++ (b ++ c).
Proof.
  induction a as [|x a IH]; simpl; [reflexivity | now rewrite IH].
Qed.

Lemma append_empty_r (a : string) : a ++ "" = a.
Proof.
  induction a as [|x a IH]; simpl; [reflexivity | now rewrite IH].
Qed.

Lemma append_eq_empty (a b : string) : a ++ b = "" -> a = "" /\ b = "".
Proof.
  destruct a; simpl; intros H; [now split | discriminate].
Qed.

Lemma contains_append (c : ascii) (a b : string) :
  contains c (a ++ b) = contains c a || contains c b.
Proof.
  induction a as [|x a IH]; simpl; [reflexivity|].
  now rewrite IH, orb_assoc.
Qed.

Lemma all_non_space_append (a b : string) :
  all_non_space (a ++ b) = all_non_space a && all_non_space b.
Proof.
  induction a as [|x a IH]; simpl; [reflexivity|].
  now rewrite IH, andb_assoc.
Qed.

(** ** The matcher decides the language *)

Module RegexFacts.

Lemma nullable_spec (r : regex) : nullable r = true <-> matches r "".
Proof.
  split.
  - induction r; simpl; intros H; try discriminate.
    + constructor.
    + apply andb_true_iff in H as [H1 H2].
      change "" with ("" ++ ""). constructor; auto.
    + apply orb_true_iff in H as [H|H]; [apply m_alt_l | apply m_alt_r]; auto.
    + constructor.
  - intros H. remember "" as s eqn:E.
    induction H; simpl; try reflexivity; try discriminate.
    + apply append_eq_empty in E as [E1 E2].
      rewrite IHmatches1, IHmatches2 by assumption. reflexivity.
    + rewrite IHmatches by assumption. reflexivity.
    + rewrite IHmatches by assumption. apply orb_true_r.
Qed.

Lemma deriv_sound (c : ascii) (r : regex) :
  forall s, matches (deriv c r) s -> matches r (String c s).
Proof.
  induction r as [| |p|r1 IH1 r2 IH2|r1 IH1 r2 IH2|r1 IH1]; simpl; intros s H.
  - inversion H.
  - inversion H.
  - destruct (p c) eqn:E; inversion H; subst. now constructor.
  - destruct (nullable r1) eqn:N.
    + inversion H as [| | | ? ? ? HL | ? ? ? HR | |]; subst.
      * inversion HL as [| |? ? s1 s2 H1 H2| | | |]; subst.
        change (String c (s1 ++ s2)) with (String c s1 ++ s2).
        constructor; auto.
      * change (String c s) with ("" ++ String c s).
        constructor; [now apply nullable_spec | auto].
    + inversion H as [| |? ? s1 s2 H1 H2| | | |]; subst.
      change (String c (s1 ++ s2)) with (String c s1 ++ s2).
      constructor; auto.
  - inversion H; subst; [apply m_alt_l | apply m_alt_r]; auto.
  - inversion H as [| |? ? s1 s2 H1 H2| | | |]; subst.
    change (String c (s1 ++ s2)) with (String c s1 ++ s2).
    constructor; auto.
Qed.

Lemma deriv_complete (r : regex) (s0 : string) :
  matches r s0 -> forall c s, s0 = String c s -> matches (deriv c r) s.
Proof.
  induction 1 as [|p x Hp|r1 r2 s1 s2 H1 IH1 H2 IH2|r1 r2 s1 H1 IH1
                 |r1 r2 s1 H1 IH1| |r1 s1 s2 H1 IH1 H2 IH2];
    intros c s E; simpl.
  - discriminate.
  - injection E as -> <-. rewrite Hp. constructor.
  - destruct s1 as [|y s1']; simpl in E.
    + assert (N : nullable r1 = true) by now apply nullable_spec.
      rewrite N. apply m_alt_r. auto.
    + injection E as -> <-.
      destruct (nullable r1); [apply m_alt_l|]; constructor; auto.
  - apply m_alt_l; auto.
  - apply m_alt_r; auto.
  - discriminate.
  - destruct s1 as [|y s1']; simpl in E.
    + apply (IH2 c s E).
    + injection E as -> <-. constructor; auto.
Qed.

Lemma deriv_spec (c : ascii) (r : regex) (s : string) :
  matches (deriv c r) s <-> matches r (String c s).
Proof.
  split; [apply deriv_sound | intros H; now apply (deriv_complete _ _ H)].
Qed.

Lemma match_here_spec (s : string) :
  forall r, match_here r s = true <->
            exists p q, s = p ++ q /\ matches r p.
Proof.
  induction s as [|c s IH]; intros r; simpl.
  - rewrite orb_false_r, nullable_spec. split.
    + intros H. exists "", "". now split.
    + intros (p & q & E & H). symmetry in E.
      apply append_eq_empty in E as [-> _]. assumption.
  - rewrite orb_true_iff, nullable_spec, IH. split.
    + intros [H | (p & q & E & H)].
      * exists "", (String c s). now split.
      * exists (String c p), q. split; [simpl; now rewrite E|].
        now apply deriv_spec.
    + intros (p & q & E & H). destruct p as [|y p]; simpl in E.
      * now left.
      * injection E as <- ->. right. exists p, q. split; [reflexivity|].
        now apply deriv_spec.
Qed.

Lemma test_spec (r : regex) (s : string) :
  test r s = true <->
  exists pre p post, s = pre ++ p ++ post /\ matches r p.
Proof.
  induction s as [|c s IH]; cbn [test].
  - rewrite orb_false_r, match_here_spec. split.
    + intros (p & q & E & H). now exists "", p, q.
    + intros (pre & p & post & E & H). symmetry in E.
      apply append_eq_empty in E as [-> E]. now exists p, post.
  - rewrite orb_true_iff, match_here_spec, IH. split.
    + intros [(p & q & E & H) | (pre & p & post & E & H)].
      * now exists "", p, q.
      * exists (String c pre), p, post.
        split; [simpl; now rewrite E | assumption].
    + intros (pre & p & post & E & H). destruct pre as [|y pre]; simpl in E.
      * left. now exists p, post.
      * injection E as <- ->. right. now exists pre, p, post.
Qed.

End RegexFacts.

(** ** The address check *)

Lemma class_inv (p : ascii -> bool) (s : string) :
  matches (Class p) s -> exists c, s = String c "" /\ p c = true.
Proof.
  intros H. inversion H; subst. eauto.
Qed.

Lemma chr_inv (c : ascii) (s : string) :
  matches (Chr c) s -> s = String c "".
Proof.
  intros H. apply class_inv in H as (x & -> & E).
  apply Ascii.eqb_eq in E. now subst.
Qed.

Lemma chr_intro (c : ascii) : matches (Chr c) (String c "").
Proof.
  constructor. apply Ascii.eqb_refl.
Qed.

Lemma star_non_space (s : string) :
  matches (Star (Class non_space)) s <-> all_non_space s = true.
Proof.
  split.
  - intros H. remember (Star (Class non_space)) as r eqn:E.
    induction H; try discriminate; [reflexivity|].
    injection E as ->.
    apply class_inv in H as (c & -> & Hc). simpl.
    rewrite Hc. auto.
  - induction s as [|c s IH]; simpl; intros H; [constructor|].
    apply andb_true_iff in H as [Hc Hs].
    change (String c s) with (String c "" ++ s).
    constructor; [now constructor | auto].
Qed.

Lemma plus_non_space (s : string) :
  matches (Plus (Class non_space)) s <-> run s.
Proof.
  unfold Plus, run. split.
  - intros H. inversion H as [| |? ? s1 s2 H1 H2| | | |]; subst.
    apply class_inv in H1 as (c & -> & Hc).
    apply star_non_space in H2. simpl. rewrite Hc, H2.
    split; [discriminate | reflexivity].
  - intros [Hne H]. destruct s as [|c s]; [contradiction|].
    simpl in H. apply andb_true_iff in H as [Hc Hs].
    change (String c s) with (String c "" ++ s).
    constructor; [now constructor | now apply star_non_space].
Qed.

Lemma email_re_spec (p : string) :
  matches email_re p <->
  exists u d t, p = u ++ "@" ++ d ++ "." ++ t /\ run u /\ run d /\ run t.
Proof.
  unfold email_re. split.
  - intros H.
    inversion H as [| |? ? u s1 Hu H1| | | |]; subst.
    inversion H1 as [| |? ? a s2 Ha H2| | | |]; subst.
    inversion H2 as [| |? ? d s3 Hd H3| | | |]; subst.
    inversion H3 as [| |? ? b t Hb Ht| | | |]; subst.
    apply chr_inv in Ha as ->. apply chr_inv in Hb as ->.
    exists u, d, t. repeat split; try (now apply plus_non_space).
  - intros (u & d & t & -> & Hu & Hd & Ht).
    constructor; [now apply plus_non_space|].
    change ("@" ++ d ++ "." ++ t) with (String "@" "" ++ d ++ String "." "" ++ t).
    constructor; [apply chr_intro|].
    constructor; [now apply plus_non_space|].
    constructor; [apply chr_intro | now apply plus_non_space].
Qed.

Lemma shape_assoc (pre u d t post : string) :
  pre ++ (u ++ "@" ++ d ++ "." ++ t) ++ post =
  pre ++ u ++ "@" ++ d ++ "." ++ t ++ post.
Proof.
  f_equal. rewrite append_assoc. f_equal. simpl. f_equal.
  now rewrite append_assoc.
Qed.

(** The check of the three handlers accepts exactly the addresses of the
    shape the specification describes. *)
Lemma test_email_shape (s : string) :
  test email_re s = true <-> email_shape s.
Proof.
  unfold email_shape. rewrite RegexFacts.test_spec. split.
  - intros (pre & p & post & -> & H).
    apply email_re_spec in H as (u & d & t & -> & Hu & Hd & Ht).
    exists pre, u, d, t, post. split; [apply shape_assoc | tauto].
  - intros (pre & u & d & t & post & -> & Hu & Hd & Ht).
    exists pre, (u ++ "@" ++ d ++ "." ++ t), post. split.
    + symmetry. apply shape_assoc.
    + apply email_re_spec. now exists u, d, t.
Qed.

Lemma email_shape_contains (s : string) :
  email_shape s -> contains "@" s = true /\ contains "." s = true.
Proof.
  intros (pre & u & d & t & post & -> & _).
  rewrite !contains_append. simpl.
  split; repeat (simpl; rewrite ?orb_true_r, ?orb_true_l); reflexivity.
Qed.

Lemma test_email_lacks (c : ascii) (v : field) :
  c = "@"%char \/ c = "."%char -> lacks c v -> falsy v = false ->
  test email_re (ToString v) = false.
Proof.
  intros Hc Hl Hf. destruct v as [s|]; [|discriminate]. simpl in *.
  destruct (test email_re s) eqn:E; [|reflexivity].
  apply test_email_shape, email_shape_contains in E as [E1 E2].
  destruct Hc; subst; congruence.
Qed.

(** ** The handlers *)

Arguments test : simpl never.

Lemma exec_never_aborts (q : statement) (n : nat) (d : database) :
  never_aborts q -> exists d', exec q n d = Done d'.
Proof.
  destruct q as [| [|] email |]; simpl; intros H; try contradiction; eauto.
  destruct (subscribed email (subscriptions d)); eauto.
Qed.

Lemma falsy_false (v : field) :
  falsy v = false -> exists c s, v = Some (String c s).
Proof.
  destruct v as [[|c s]|]; simpl; intros H; try discriminate. eauto.
Qed.

Lemma email_shape_nonempty (s : string) : email_shape s -> s <> "".
Proof.
  intros H E. apply email_shape_contains in H as [H _].
  subst. discriminate.
Qed.

(** ** The subscriptions table *)

Lemma subscribed_In (email : string) (rows : list subscription_row) :
  subscribed email rows = true <-> In email (map s_email rows).
Proof.
  unfold subscribed. rewrite existsb_exists, in_map_iff. split.
  - intros (r & Hin & E). apply String.eqb_eq in E. eauto.
  - intros (r & E & Hin). exists r. split; [assumption|].
    apply String.eqb_eq. now symmetry.
Qed.

Lemma count_absent (email : string) (rows : list subscription_row) :
  subscribed email rows = false ->
  List.length (filter (fun r => String.eqb email (s_email r)) rows) = 0.
Proof.
  induction rows as [|r rows IH]; simpl; [reflexivity|].
  intros H. apply orb_false_iff in H as [E H]. rewrite E. auto.
Qed.

Lemma count_present (email : string) (rows : list subscription_row) :
  NoDup (map s_email rows) -> subscribed email rows = true ->
  List.length (filter (fun r => String.eqb email (s_email r)) rows) = 1.
Proof.
  induction rows as [|r rows IH]; simpl; [discriminate|].
  intros N H. inversion N as [|? ? Hnot N']; subst.
  destruct (String.eqb email (s_email r)) eqn:E; simpl in *.
  - apply String.eqb_eq in E. subst. f_equal.
    apply count_absent. destruct (subscribed (s_email r) rows) eqn:S; [|reflexivity].
    apply subscribed_In in S. contradiction.
  - auto.
Qed.

(** [INSERT OR IGNORE] leaves the table with exactly one row for the
    address and keeps the uniqueness constraint. *)
Lemma insert_or_ignore_once (email : string) (n : nat) (d : database) :
  unique_emails d ->
  exists d',
    exec (InsertSubscription Ignore email) n d = Done d' /\
    unique_emails d' /\
    subscribed email (subscriptions d') = true /\
    subscription_count email d' = 1.
Proof.
  unfold unique_emails, subscription_count. intros U. simpl.
  destruct (subscribed email (subscriptions d)) eqn:S.
  - eexists. split; [reflexivity|]. simpl.
    repeat split; auto using count_present.
  - eexists. split; [reflexivity|]. simpl.
    rewrite map_app, filter_app, length_app, count_absent by assumption.
    simpl. rewrite String.eqb_refl. repeat split.
    + apply NoDup_app; [assumption | repeat constructor; intros [] |].
      simpl. intros x Hin [<-|[]].
      apply subscribed_In in Hin. congruence.
    + unfold subscribed. rewrite existsb_app. simpl.
      rewrite String.eqb_refl. apply orb_true_r.
Qed.

(** On a table that has the address the statement reports no error and
    leaves the rows as they are. *)
Lemma insert_or_ignore_again (email : string) (n : nat) (d : database) :
  subscribed email (subscriptions d) = true ->
  exists d',
    exec (InsertSubscription Ignore email) n d = Done d' /\
    subscriptions d' = subscriptions d.
Proof.
  intros S. simpl. rewrite S. eexists. split; reflexivity.
Qed.

Section ServerFacts.

Variable sanitizeHtml : string -> SanitizeOptions -> string.
Variable EMAIL_USER : field.
Variable EMAIL_TO : field.

Local Abbreviation handler' := (handler sanitizeHtml EMAIL_USER EMAIL_TO).
Local Abbreviation serve' := (serve sanitizeHtml EMAIL_USER EMAIL_TO).

(** A valid write request gets as far as the [await]: nothing has been
    answered, the statement is queued and one message has been handed
    to the transport. *)
Lemma handler_valid (r : request) (w : world) :
  passes_validation r = true ->
  exists q m,
    never_aborts q /\
    handler' r w =
      (Normal (Some {| query := q;
                       on_insert := insert_callback (save_error r);
                       on_mail := resume (success_message r) |}),
       with_outbox (outbox w ++ [m])%list w).
Proof.
  unfold passes_validation, handler.
  destruct r as [path|name email message|email|name email product message|];
    try discriminate; simpl; intros H;
    repeat match goal with
           | H : _ && _ = true |- _ => apply andb_true_iff in H as [? ?]
           | H : negb (falsy ?v) = true |- _ =>
               apply negb_true_iff, falsy_false in H as (? & ? & ->)
           end;
    match goal with
    | H : test email_re _ = true |- _ => simpl in H
    end.
  - unfold contact. simpl. rewrite H0. simpl.
    eexists _, _. split; [|reflexivity]. exact I.
  - unfold subscribe. simpl. rewrite H0. simpl.
    eexists _, _. split; [|reflexivity]. exact I.
  - unfold inquiry. simpl. rewrite H0. simpl.
    eexists _, _. split; [|reflexivity]. exact I.
Qed.

(** The response of a valid write request, by outcome and order of the
    two completions. *)
Lemma serve_sent (r : request) (e : env) (w : world) :
  passes_validation r = true ->
  sent (serve' r e w) =
  Some match storage_failure e, first e with
       | Some _, InsertFirst =>
           {| status := 500; body := JError (save_error r) |}
       | _, _ =>
           match smtp_failure e with
           | None =>
               {| status := 200; body := JMessage (success_message r) |}
           | Some x =>
               {| status := 500;
                  body := JError ("Failed to send email: " ++ x) |}
           end
       end.
Proof.
  intros H. unfold serve.
  destruct (handler_valid r (with_sent None w) H) as (q & m & Hq & ->).
  destruct e as [sf mf fo n]. unfold complete_insert, complete_mail. simpl.
  destruct (exec_never_aborts q n (db w) Hq) as [d' Hd].
  destruct sf, mf, fo; simpl; rewrite ?Hd; reflexivity.
Qed.

(** The insert of a valid write request takes effect exactly when the
    storage works, whatever is answered. *)
Lemma serve_db (r : request) (e : env) (w : world) :
  passes_validation r = true ->
  exists q,
    never_aborts q /\
    match storage_failure e with
    | Some _ => db (serve' r e w) = db w
    | None => Done (db (serve' r e w)) = exec q (now e) (db w)
    end.
Proof.
  intros H. unfold serve.
  destruct (handler_valid r (with_sent None w) H) as (q & m & Hq & ->).
  exists q. split; [assumption|].
  destruct e as [sf mf fo n]. unfold complete_insert, complete_mail. simpl.
  destruct (exec_never_aborts q n (db w) Hq) as [d' Hd].
  destruct sf, mf, fo; simpl; rewrite ?Hd; reflexivity.
Qed.

(** A valid write request hands exactly one message to the transport,
    whatever becomes of the insert. *)
Lemma serve_outbox (r : request) (e : env) (w : world) :
  passes_validation r = true ->
  exists m, outbox (serve' r e w) = (outbox w ++ [m])%list.
Proof.
  intros H. unfold serve.
  destruct (handler_valid r (with_sent None w) H) as (q & m & Hq & ->).
  exists m.
  destruct e as [sf mf fo n]. unfold complete_insert, complete_mail. simpl.
  destruct (exec_never_aborts q n (db w) Hq) as [d' Hd].
  destruct sf, mf, fo; simpl; rewrite ?Hd; reflexivity.
Qed.

(** With a working storage no exception escapes a valid write
    request. *)
Lemma serve_uncaught (r : request) (e : env) (w : world) :
  passes_validation r = true -> storage_failure e = None ->
  uncaught (serve' r e w) = uncaught w.
Proof.
  intros H Hs. unfold serve.
  destruct (handler_valid r (with_sent None w) H) as (q & m & Hq & ->).
  destruct e as [sf mf fo n]. simpl in Hs. subst sf.
  unfold complete_insert, complete_mail. simpl.
  destruct (exec_never_aborts q n (db w) Hq) as [d' Hd].
  destruct mf, fo; simpl; rewrite ?Hd; reflexivity.
Qed.

(** When the callback of [db.run] runs first, a failed insert is
    answered with the 500 of that callback. *)
Lemma insert_failure_first (r : request) (e : env) (w : world) (msg : string) :
  passes_validation r = true ->
  storage_failure e = Some msg -> first e = InsertFirst ->
  answered 500 (JError (save_error r)) (serve' r e w).
Proof.
  intros H Hs Hf. unfold answered.
  rewrite (serve_sent r e w H), Hs, Hf. reflexivity.
Qed.

(** What the subscribe handler leaves in the database when the
    storage works. *)
Lemma subscribe_db (email : string) (e : env) (w : world) :
  email_shape email -> storage_failure e = None ->
  Done (db (serve' (PostSubscribe (Some email)) e w)) =
  exec (InsertSubscription Ignore (sanitizeInput sanitizeHtml email))
       (now e) (db w).
Proof.
  intros Hs Hf.
  pose proof (email_shape_nonempty _ Hs) as Hne.
  apply test_email_shape in Hs.
  destruct email as [|c email]; [contradiction|].
  unfold serve, handler, subscribe. simpl. rewrite Hs. simpl.
  destruct e as [sf mf fo n]. simpl in Hf. subst sf.
  unfold complete_insert, complete_mail.
  destruct mf, fo; simpl; destruct (subscribed _ _); reflexivity.
Qed.

(** C1. A contact submission with non-empty name, address and message
    and an address of the required shape is answered 200 "Contact form
    submitted successfully", and once the request has run its course
    the contacts table has a row with the three sanitized values.
    The storage and the relay are taken to work. *)
Theorem contact_valid_submission (name email message : string)
    (e : env) (w : world) :
  name <> "" -> email <> "" -> message <> "" ->
  email_shape email ->
  storage_failure e = None -> smtp_failure e = None ->
  let w' := serve' (PostContact (Some name) (Some email) (Some message)) e w in
  answered 200 (JMessage "Contact form submitted successfully") w' /\
  exists row,
    In row (contacts (db w')) /\
    c_name row = sanitizeInput sanitizeHtml name /\
    c_email row = sanitizeInput sanitizeHtml email /\
    c_message row = sanitizeInput sanitizeHtml message.
Proof.
  intros Hn He Hm Hs Hdb Hsmtp.
  apply test_email_shape in Hs.
  destruct name as [|? ?]; [contradiction|].
  destruct email as [|? ?]; [contradiction|].
  destruct message as [|? ?]; [contradiction|].
  unfold serve, handler, contact, answered. simpl. rewrite Hs. simpl.
  destruct e as [sf mf fo n]. simpl in Hdb, Hsmtp. subst sf mf.
  unfold complete_insert, complete_mail.
  destruct fo; simpl; (split; [reflexivity|]);
    eexists; (split; [apply in_or_app; right; left; reflexivity|]);
    simpl; auto.
Qed.

(** C2. The same address submitted twice to the subscribe endpoint:
    both calls are answered 200 "Subscription successful", the table
    holds exactly one row for the sanitized address afterwards, the
    second insert leaves the rows of the table as the first one left
    them and no error is raised.  The address has the required shape,
    and the storage and the relay are taken to work. *)
Theorem subscribe_twice_one_row (email : string) (e1 e2 : env) (w : world) :
  email_shape email ->
  storage_failure e1 = None -> smtp_failure e1 = None ->
  storage_failure e2 = None -> smtp_failure e2 = None ->
  unique_emails (db w) ->
  let r := PostSubscribe (Some email) in
  let w1 := serve' r e1 w in
  let w2 := serve' r e2 w1 in
  answered 200 (JMessage "Subscription successful") w1 /\
  answered 200 (JMessage "Subscription successful") w2 /\
  subscription_count (sanitizeInput sanitizeHtml email) (db w2) = 1 /\
  subscriptions (db w2) = subscriptions (db w1) /\
  uncaught w2 = uncaught w.
Proof.
  intros Hs Hd1 Hm1 Hd2 Hm2 U r w1 w2.
  assert (V : passes_validation r = true).
  { unfold passes_validation, r. simpl.
    pose proof (email_shape_nonempty _ Hs) as Hne.
    apply test_email_shape in Hs. rewrite Hs.
    destruct email; [contradiction | reflexivity]. }
  pose proof (subscribe_db email e1 w Hs Hd1) as D1.
  pose proof (subscribe_db email e2 w1 Hs Hd2) as D2.
  fold r in D1, D2. fold w1 in D1, D2. fold w2 in D2.
  destruct (insert_or_ignore_once (sanitizeInput sanitizeHtml email)
              (now e1) (db w) U) as (d1 & E1 & U1 & S1 & C1).
  rewrite E1 in D1. injection D1 as D1.
  rewrite D1 in D2.
  destruct (insert_or_ignore_again (sanitizeInput sanitizeHtml email)
              (now e2) d1 S1) as (d2 & E2 & R2).
  rewrite E2 in D2. injection D2 as D2.
  unfold answered. repeat split.
  - unfold w1. rewrite serve_sent, Hd1, Hm1 by assumption. reflexivity.
  - unfold w2. rewrite serve_sent, Hd2, Hm2 by assumption. reflexivity.
  - rewrite D2. unfold subscription_count in *. now rewrite R2.
  - rewrite D2, D1. exact R2.
  - unfold w2, w1. now rewrite !serve_uncaught.
Qed.

(** C6. A write request that lacks a required field (absent or empty)
    is answered 400; the database and the outbox are as they were: no
    row is stored and no message is handed to the transport. *)
Theorem missing_field_rejected (r : request) (e : env) (w : world) :
  is_write r = true ->
  existsb falsy (required r) = true ->
  let w' := serve' r e w in
  (exists msg, answered 400 (JError msg) w') /\
  db w' = db w /\ outbox w' = outbox w.
Proof.
  unfold answered, serve, handler.
  destruct r as [path|name email message|email|name email product message|];
    try discriminate; intros _ H; simpl in H.
  - assert (F : falsy name || falsy email || falsy message = true)
      by (destruct (falsy name), (falsy email), (falsy message); auto).
    unfold contact. rewrite F. simpl. eauto.
  - rewrite orb_false_r in H.
    unfold subscribe. rewrite H. simpl. eauto.
  - assert (F : falsy name || falsy email || falsy product || falsy message
                = true)
      by (destruct (falsy name), (falsy email), (falsy product),
                   (falsy message); auto).
    unfold inquiry. rewrite F. simpl. eauto.
Qed.

(** C7. A write request whose address has no at sign, or has no dot, is
    answered 400, whatever the other fields hold. *)
Theorem malformed_email_rejected (r : request) (e : env) (w : world) :
  is_write r = true ->
  lacks "@" (email_of r) \/ lacks "." (email_of r) ->
  exists msg, answered 400 (JError msg) (serve' r e w).
Proof.
  assert (T : forall v, lacks "@" v \/ lacks "." v -> falsy v = false ->
                        test email_re (ToString v) = false).
  { intros v [H|H] F; [apply (test_email_lacks "@") | apply (test_email_lacks ".")];
      auto. }
  unfold answered, serve, handler.
  destruct r as [path|name email message|email|name email product message|];
    try discriminate; intros _ H; simpl in H.
  - unfold contact.
    destruct (falsy name || falsy email || falsy message) eqn:F;
      [simpl; eauto|].
    apply orb_false_iff in F as [F _]. apply orb_false_iff in F as [_ F].
    rewrite (T _ H F). simpl. eauto.
  - unfold subscribe.
    destruct (falsy email) eqn:F; [simpl; eauto|].
    rewrite (T _ H F). simpl. eauto.
  - unfold inquiry.
    destruct (falsy name || falsy email || falsy product || falsy message)
      eqn:F; [simpl; eauto|].
    apply orb_false_iff in F as [F _]. apply orb_false_iff in F as [F _].
    apply orb_false_iff in F as [_ F].
    rewrite (T _ H F). simpl. eauto.
Qed.

(** C10, as amended. A write request that passes validation is answered
    200 with the success message exactly when the dispatch succeeds and
    the callback of a failed insert has not answered first, that is,
    the insert succeeded or the [sendMail] promise settled before the
    insert callback ran.  A failed insert leaves the database as it
    was, so a 200 does not tell that the row was stored. *)
Theorem success_iff_mail_and_no_earlier_failure
    (r : request) (e : env) (w : world) :
  passes_validation r = true ->
  (answered 200 (JMessage (success_message r)) (serve' r e w) <->
   smtp_failure e = None /\
   (storage_failure e = None \/ first e = MailFirst)) /\
  (storage_failure e <> None -> db (serve' r e w) = db w).
Proof.
  intros V. split.
  - unfold answered. rewrite (serve_sent r e w V).
    destruct (storage_failure e), (smtp_failure e), (first e);
      split; intuition congruence.
  - intros F. destruct (serve_db r e w V) as (q & _ & D).
    destruct (storage_failure e); [assumption | contradiction].
Qed.

End ServerFacts.

(** ** The page lookup *)

Lemma page_contact
    (sanitizeHtml : string -> SanitizeOptions -> string)
    (EMAIL_USER EMAIL_TO : field) (e : env) (w : world) :
  answered 200 (JComponent "ContactUs")
    (serve sanitizeHtml EMAIL_USER EMAIL_TO (GetPage (Some "/contact")) e w).
Proof.
  reflexivity.
Qed.

Lemma page_unknown
    (sanitizeHtml : string -> SanitizeOptions -> string)
    (EMAIL_USER EMAIL_TO : field) (e : env) (w : world) :
  answered 404 (JError "Page not found")
    (serve sanitizeHtml EMAIL_USER EMAIL_TO (GetPage (Some "/unknown")) e w) /\
  answered 404 (JError "Page not found")
    (serve sanitizeHtml EMAIL_USER EMAIL_TO (GetPage (Some "/contact/")) e w).
Proof.
  split; reflexivity.
Qed.

(** The lookup answers 404 exactly for the keys that are neither in the
    table nor a member name of [Object.prototype]. *)
Lemma page_not_found_iff
    (sanitizeHtml : string -> SanitizeOptions -> string)
    (EMAIL_USER EMAIL_TO : field) (path : field) (e : env) (w : world) :
  answered 404 (JError "Page not found")
    (serve sanitizeHtml EMAIL_USER EMAIL_TO (GetPage path) e w) <->
  own (ToString path) routes = None /\
  mem (ToString path) Object_prototype = false.
Proof.
  unfold answered, serve, handler, page, routes_get. cbv zeta.
  destruct (own (ToString path) routes) as [c|];
    [|destruct (mem (ToString path) Object_prototype)]; cbn.
  - split; [intros H | intros [H _]]; discriminate H.
  - split; [intros H | intros [_ H]]; discriminate H.
  - split; auto.
Qed.

(** ** The sanitizer on simple markup *)










(** ** Where the code departs from the specification *)

(** C3. The insert fails and the [sendMail] promise settles before the
    insert callback runs: a valid contact submission is answered 200
    "Contact form submitted successfully", no row is stored, and the 500
    of the callback ends as an uncaught exception. *)
Theorem insert_failure_answered_200 :
  let r := PostContact (Some "Alice") (Some "alice@example.com") (Some "Hello") in
  let e := {| storage_failure := Some "SQLITE_BUSY: database is locked";
              smtp_failure := None; first := MailFirst; now := 0 |} in
  let w' := serve sanitizeHtml_model None None r e initial_world in
  passes_validation r = true /\
  answered 200 (JMessage "Contact form submitted successfully") w' /\
  contacts (db w') = [] /\
  uncaught w' = [ERR_HTTP_HEADERS_SENT].
Proof.
  repeat split.
Qed.

(** C4. A valid inquiry with the storage and the relay both failing: the
    answer is the 500 with the relay's message and the message was handed
    to the transport once, yet the inquiries table has no row.  Also with
    a working storage no row is there when the handler suspends after
    calling [sendMail]: the insert is queued, not awaited. *)
Theorem inquiry_dispatched_without_row :
  let r := PostInquiry (Some "Bob") (Some "bob@example.com")
                       (Some "Widget") (Some "Price?") in
  let e := {| storage_failure := Some "SQLITE_IOERR: disk I/O error";
              smtp_failure := Some "connect ECONNREFUSED";
              first := MailFirst; now := 0 |} in
  let w' := serve sanitizeHtml_model None None r e initial_world in
  let ws := suspended sanitizeHtml_model None None r initial_world in
  passes_validation r = true /\
  answered 500 (JError "Failed to send email: connect ECONNREFUSED") w' /\
  List.length (outbox w') = 1 /\
  inquiries (db w') = [] /\
  List.length (outbox ws) = 1 /\
  inquiries (db ws) = [].
Proof.
  repeat split.
Qed.

(** C8. A path that names a member of [Object.prototype], here
    [constructor], is not in the table and is answered 200, not 404. *)
Theorem page_inherited_member_answered_200
    (sanitizeHtml : string -> SanitizeOptions -> string)
    (EMAIL_USER EMAIL_TO : field) (e : env) (w : world) :
  own "constructor" routes = None /\
  answered 200 (JMember "constructor")
    (serve sanitizeHtml EMAIL_USER EMAIL_TO (GetPage (Some "constructor")) e w).
Proof.
  split; reflexivity.
Qed.

(** C10, as stated, fails: the dispatch succeeds and the answer is not
    the 200, because the callback of the failed insert answered first. *)
Lemma success_not_decided_by_mail_alone :
  let r := PostContact (Some "Alice") (Some "alice@example.com") (Some "Hello") in
  let e := {| storage_failure := Some "SQLITE_BUSY: database is locked";
              smtp_failure := None; first := InsertFirst; now := 0 |} in
  let w' := serve sanitizeHtml_model None None r e initial_world in
  passes_validation r = true /\
  ~ (answered 200 (JMessage (success_message r)) w' <-> smtp_failure e = None).
Proof.
  split; [reflexivity|].
  intros [_ H]. specialize (H eq_refl). discriminate H.
Qed.

(** ** The theorems at concrete requests *)

Lemma contact_valid_submission_witness :
  let e := {| storage_failure := None; smtp_failure := None;
              first := InsertFirst; now := 7 |} in
  let w' := serve sanitizeHtml_model None None
              (PostContact (Some "<b>Alice</b>") (Some "alice@example.com")
                           (Some "Hello")) e initial_world in
  email_shape "alice@example.com" /\
  answered 200 (JMessage "Contact form submitted successfully") w' /\
  exists row,
    In row (contacts (db w')) /\
    c_name row = sanitizeInput sanitizeHtml_model "<b>Alice</b>" /\
    c_email row = sanitizeInput sanitizeHtml_model "alice@example.com" /\
    c_message row = sanitizeInput sanitizeHtml_model "Hello".
Proof.
  assert (S : email_shape "alice@example.com")
    by (apply test_email_shape; reflexivity).
  split; [exact S|].
  apply (contact_valid_submission sanitizeHtml_model None None
           "<b>Alice</b>" "alice@example.com" "Hello");
    try discriminate; try reflexivity; exact S.
Defined.

Lemma subscribe_twice_one_row_witness :
  let e1 := {| storage_failure := None; smtp_failure := None;
               first := InsertFirst; now := 1 |} in
  let e2 := {| storage_failure := None; smtp_failure := None;
               first := MailFirst; now := 2 |} in
  let r := PostSubscribe (Some "alice@example.com") in
  let w1 := serve sanitizeHtml_model None None r e1 initial_world in
  let w2 := serve sanitizeHtml_model None None r e2 w1 in
  email_shape "alice@example.com" /\
  unique_emails (db initial_world) /\
  answered 200 (JMessage "Subscription successful") w1 /\
  answered 200 (JMessage "Subscription successful") w2 /\
  subscription_count (sanitizeInput sanitizeHtml_model "alice@example.com")
                     (db w2) = 1 /\
  subscriptions (db w2) = subscriptions (db w1) /\
  uncaught w2 = uncaught initial_world.
Proof.
  assert (S : email_shape "alice@example.com")
    by (apply test_email_shape; reflexivity).
  assert (U : unique_emails (db initial_world)) by constructor.
  split; [exact S|]. split; [exact U|].
  apply (subscribe_twice_one_row sanitizeHtml_model None None
           "alice@example.com"); try reflexivity; assumption.
Defined.

Lemma missing_field_rejected_witness :
  let e := {| storage_failure := None; smtp_failure := None;
              first := InsertFirst; now := 4 |} in
  let r := PostInquiry (Some "Bob") (Some "bob@example.com") None
                       (Some "Price?") in
  let w' := serve sanitizeHtml_model None None r e initial_world in
  existsb falsy (required r) = true /\
  (exists msg, answered 400 (JError msg) w') /\
  db w' = db initial_world /\ outbox w' = outbox initial_world.
Proof.
  split; [reflexivity|].
  apply (missing_field_rejected sanitizeHtml_model None None); reflexivity.
Defined.

Lemma malformed_email_rejected_witness :
  let e := {| storage_failure := None; smtp_failure := None;
              first := InsertFirst; now := 5 |} in
  let r := PostContact (Some "Alice") (Some "alice.example.com")
                       (Some "Hello") in
  lacks "@" (email_of r) /\
  exists msg,
    answered 400 (JError msg)
      (serve sanitizeHtml_model None None r e initial_world).
Proof.
  split; [reflexivity|].
  apply (malformed_email_rejected sanitizeHtml_model None None);
    [reflexivity | left; reflexivity].
Defined.

Lemma success_iff_mail_and_no_earlier_failure_witness :
  let e := {| storage_failure := Some "SQLITE_BUSY: database is locked";
              smtp_failure := None; first := MailFirst; now := 6 |} in
  let r := PostSubscribe (Some "alice@example.com") in
  let w' := serve sanitizeHtml_model None None r e initial_world in
  passes_validation r = true /\
  (answered 200 (JMessage (success_message r)) w' <->
   smtp_failure e = None /\
   (storage_failure e = None \/ first e = MailFirst)) /\
  (storage_failure e <> None -> db w' = db initial_world).
Proof.
  split; [reflexivity|].
  apply (success_iff_mail_and_no_earlier_failure sanitizeHtml_model None None).
  reflexivity.
Defined.

(** * Further properties of the server *)

(** ** Strings, continued *)

Lemma length_append (a b : string) :
  String.length (a ++ b) = String.length a + String.length b.
Proof.
  induction a as [|x a IH]; simpl; [reflexivity | now rewrite IH].
Qed.

Lemma run_length (s : string) : run s -> 1 <= String.length s.
Proof.
  intros [H _]. destruct s; [contradiction | simpl; lia].
Qed.

(** ** What a statement does to the tables *)

Lemma exec_appends (q : statement) (n : nat) (d d' : database) :
  exec q n d = Done d' ->
  exists cs ss qs,
    contacts d' = (contacts d ++ cs)%list /\
    subscriptions d' = (subscriptions d ++ ss)%list /\
    inquiries d' = (inquiries d ++ qs)%list /\
    List.length cs + List.length ss + List.length qs <= 1.
Proof.
  destruct q as [name email message|policy email|name email product message];
    simpl; intros H.
  - injection H as <-. simpl.
    eexists [_], [], []. rewrite !app_nil_r. repeat split. simpl. lia.
  - destruct (subscribed email (subscriptions d)).
    + destruct policy; [discriminate|]. injection H as <-.
      exists [], [], []. rewrite !app_nil_r. repeat split. simpl. lia.
    + injection H as <-. simpl.
      eexists [], [_], []. rewrite !app_nil_r. repeat split. simpl. lia.
  - injection H as <-. simpl.
    eexists [], [], [_]. rewrite !app_nil_r. repeat split. simpl. lia.
Qed.

Lemma exec_unique_emails (q : statement) (n : nat) (d d' : database) :
  exec q n d = Done d' -> unique_emails d -> unique_emails d'.
Proof.
  unfold unique_emails.
  destruct q as [name email message|policy email|name email product message];
    simpl; intros H U.
  - injection H as <-. assumption.
  - destruct (subscribed email (subscriptions d)) eqn:S.
    + destruct policy; [discriminate|]. injection H as <-. assumption.
    + injection H as <-. simpl. rewrite map_app. simpl.
      apply NoDup_app; [assumption | repeat constructor; intros [] |].
      intros x Hin [<-|[]]. apply subscribed_In in Hin. congruence.
  - injection H as <-. assumption.
Qed.

Lemma fresh_key (ids : list nat) (seq : nat) :
  NoDup ids /\ Forall (fun k => k <= seq) ids ->
  NoDup (ids ++ [S seq]) /\ Forall (fun k => k <= S seq) (ids ++ [S seq]).
Proof.
  intros [N B]. split.
  - apply NoDup_app; [assumption | repeat constructor; intros [] |].
    intros x Hin [<-|[]].
    rewrite Forall_forall in B. apply B in Hin. lia.
  - apply Forall_app. split; [|repeat constructor].
    eapply Forall_impl; [|exact B]. simpl. intros; lia.
Qed.

Lemma exec_keys_fresh (q : statement) (n : nat) (d d' : database) :
  exec q n d = Done d' -> keys_fresh d -> keys_fresh d'.
Proof.
  unfold keys_fresh.
  destruct q as [name email message|policy email|name email product message];
    simpl; intros H (Kc & Ks & Ki).
  - injection H as <-. simpl. rewrite map_app. simpl.
    repeat split; try tauto; now apply fresh_key.
  - destruct (subscribed email (subscriptions d)).
    + destruct policy; [discriminate|]. injection H as <-. simpl.
      destruct Ks as [Ns Bs]. repeat split; try tauto.
      eapply Forall_impl; [|exact Bs]. simpl. intros; lia.
    + injection H as <-. simpl. rewrite map_app. simpl.
      repeat split; try tauto; now apply fresh_key.
  - injection H as <-. simpl. rewrite map_app. simpl.
    repeat split; try tauto; now apply fresh_key.
Qed.

Lemma count_at_most_one (email : string) (d : database) :
  unique_emails d -> subscription_count email d <= 1.
Proof.
  unfold unique_emails, subscription_count. intros U.
  destruct (subscribed email (subscriptions d)) eqn:S.
  - now rewrite count_present.
  - rewrite count_absent by assumption. lia.
Qed.

(** ** The two ways a request runs *)

Lemma passes_contact (name email message : field) :
  passes_validation (PostContact name email message) =
  negb (falsy name || falsy email || falsy message)
  && test email_re (ToString email).
Proof.
  unfold passes_validation. simpl.
  destruct (falsy name), (falsy email), (falsy message); reflexivity.
Qed.

Lemma passes_subscribe (email : field) :
  passes_validation (PostSubscribe email) =
  negb (falsy email) && test email_re (ToString email).
Proof.
  unfold passes_validation. simpl. destruct (falsy email); reflexivity.
Qed.

Lemma passes_inquiry (name email product message : field) :
  passes_validation (PostInquiry name email product message) =
  negb (falsy name || falsy email || falsy product || falsy message)
  && test email_re (ToString email).
Proof.
  unfold passes_validation. simpl.
  destruct (falsy name), (falsy email), (falsy product), (falsy message);
    reflexivity.
Qed.

Section Further.

Variable sanitizeHtml : string -> SanitizeOptions -> string.
Variable EMAIL_USER : field.
Variable EMAIL_TO : field.

Local Abbreviation handler' := (handler sanitizeHtml EMAIL_USER EMAIL_TO).
Local Abbreviation serve' := (serve sanitizeHtml EMAIL_USER EMAIL_TO).
Local Abbreviation serve_all' := (serve_all sanitizeHtml EMAIL_USER EMAIL_TO).
Local Abbreviation san := (sanitizeInput sanitizeHtml).

(** A request that passes validation suspends with the statement and the
    message that [statement_of] and [mail_of] give. *)
Lemma handler_suspends (r : request) (w : world) :
  passes_validation r = true ->
  exists q m,
    statement_of sanitizeHtml r = Some q /\
    mail_of sanitizeHtml EMAIL_USER EMAIL_TO r = Some m /\
    never_aborts q /\
    handler' r w =
      (Normal (Some {| query := q;
                       on_insert := insert_callback (save_error r);
                       on_mail := resume (success_message r) |}),
       with_outbox (outbox w ++ [m])%list w).
Proof.
  destruct r as [path|name email message|email|name email product message|];
    try discriminate.
  - rewrite passes_contact. intros H.
    apply andb_true_iff in H as [F T]. apply negb_true_iff in F.
    unfold handler, contact. rewrite F, T. simpl.
    eexists _, _. repeat split.
  - rewrite passes_subscribe. intros H.
    apply andb_true_iff in H as [F T]. apply negb_true_iff in F.
    unfold handler, subscribe. rewrite F, T. simpl.
    eexists _, _. repeat split.
  - rewrite passes_inquiry. intros H.
    apply andb_true_iff in H as [F T]. apply negb_true_iff in F.
    unfold handler, inquiry. rewrite F, T. simpl.
    eexists _, _. repeat split.
Qed.

(** The whole outcome of a request that passes validation. *)
Lemma serve_accepted (r : request) (e : env) (w : world) :
  passes_validation r = true ->
  exists q m d',
    statement_of sanitizeHtml r = Some q /\
    mail_of sanitizeHtml EMAIL_USER EMAIL_TO r = Some m /\
    exec q (now e) (db w) = Done d' /\
    serve' r e w =
      {| db := match storage_failure e with
               | None => d'
               | Some _ => db w
               end;
         outbox := (outbox w ++ [m])%list;
         sent := Some
           match storage_failure e, first e with
           | Some _, InsertFirst =>
               {| status := 500; body := JError (save_error r) |}
           | _, _ =>
               match smtp_failure e with
               | None =>
                   {| status := 200; body := JMessage (success_message r) |}
               | Some x =>
                   {| status := 500;
                      body := JError ("Failed to send email: " ++ x) |}
               end
           end;
         uncaught := match storage_failure e with
                     | None => uncaught w
                     | Some _ => (uncaught w ++ [ERR_HTTP_HEADERS_SENT])%list
                     end |}.
Proof.
  intros V. unfold serve.
  destruct (handler_suspends r (with_sent None w) V)
    as (q & m & Hq & Hm & Hn & ->).
  destruct (exec_never_aborts q (now e) (db w) Hn) as [d' Hd].
  exists q, m, d'. repeat (split; [assumption|]).
  destruct e as [sf mf fo n]. unfold complete_insert, complete_mail.
  simpl in *.
  destruct sf, mf, fo; simpl; rewrite ?Hd; reflexivity.
Qed.

(** The whole outcome of any other request: the immediate reply and
    nothing else. *)
Lemma serve_rejected (r : request) (e : env) (w : world) :
  passes_validation r = false ->
  serve' r e w = with_sent (Some (immediate_reply r)) w.
Proof.
  destruct r as [path|name email message|email|name email product message|].
  - intros _. unfold serve, handler, page, immediate_reply.
    destruct (defined (routes_get path)); reflexivity.
  - rewrite passes_contact. intros V.
    unfold serve, handler, contact, immediate_reply. simpl existsb.
    destruct (falsy name), (falsy email), (falsy message);
      try reflexivity.
    simpl in V. rewrite V. reflexivity.
  - rewrite passes_subscribe. intros V.
    unfold serve, handler, subscribe, immediate_reply. simpl existsb.
    destruct (falsy email); try reflexivity.
    simpl in V. rewrite V. reflexivity.
  - rewrite passes_inquiry. intros V.
    unfold serve, handler, inquiry, immediate_reply. simpl existsb.
    destruct (falsy name), (falsy email), (falsy product), (falsy message);
      try reflexivity.
    simpl in V. rewrite V. reflexivity.
  - intros _. reflexivity.
Qed.

(** ** Responses *)

(** X2. A write request is answered 400 exactly when it fails
    validation: a missing field or an address the check refuses. *)
Theorem bad_request_iff_invalid (r : request) (e : env) (w : world) :
  is_write r = true ->
  ((exists msg, answered 400 (JError msg) (serve' r e w)) <->
   passes_validation r = false).
Proof.
  intros W. unfold answered. split.
  - intros [msg H]. destruct (passes_validation r) eqn:V; [|reflexivity].
    destruct (serve_accepted r e w V) as (q & m & d' & _ & _ & _ & E).
    rewrite E in H. simpl in H.
    destruct (storage_failure e), (first e), (smtp_failure e); discriminate H.
  - intros V. rewrite (serve_rejected r e w V).
    destruct r; try discriminate; simpl; eauto.
Qed.

(** X3. The two checks run in order: a write request with a missing
    field gets the missing-field message even when its address is
    malformed too; "Invalid email" is the answer only when every required
    field is present. *)
Theorem validation_message (r : request) (e : env) (w : world) :
  is_write r = true -> passes_validation r = false ->
  answered 400
    (JError (if existsb falsy (required r)
             then missing_message r else "Invalid email"))
    (serve' r e w).
Proof.
  intros W V. unfold answered. rewrite (serve_rejected r e w V).
  destruct r; try discriminate; reflexivity.
Qed.

(** X4. A request that does not pass validation, the page lookup and the
    catch-all included, stores nothing, mails nothing and lets no
    exception escape. *)
Theorem rejected_request_no_effect (r : request) (e : env) (w : world) :
  passes_validation r = false ->
  db (serve' r e w) = db w /\
  outbox (serve' r e w) = outbox w /\
  uncaught (serve' r e w) = uncaught w.
Proof.
  intros V. rewrite (serve_rejected r e w V). repeat split.
Qed.

(** ** Notification mail *)

(** X5. A request that passes validation hands exactly one message to the
    transport, whatever becomes of the insert and in either order; its
    sender is EMAIL_USER and its recipient is EMAIL_TO, or the fallback
    address when EMAIL_TO is unset or empty. *)
Theorem notification_envelope (r : request) (e : env) (w : world) :
  passes_validation r = true ->
  exists m,
    outbox (serve' r e w) = (outbox w ++ [m])%list /\
    from m = EMAIL_USER /\
    to m = if falsy EMAIL_TO then "zuby@top10enterprise.com"
           else ToString EMAIL_TO.
Proof.
  intros V.
  destruct (serve_accepted r e w V) as (q & m & d' & _ & Hm & _ & ->).
  exists m. split; [reflexivity|].
  destruct r; try discriminate; injection Hm as <-; split; reflexivity.
Qed.

(** X13. When the dispatch fails and the insert callback has not answered
    first, the answer is the 500 that carries the relay's message. *)
Theorem dispatch_failure_answer (r : request) (e : env) (w : world)
    (msg : string) :
  passes_validation r = true ->
  smtp_failure e = Some msg ->
  storage_failure e = None \/ first e = MailFirst ->
  answered 500 (JError ("Failed to send email: " ++ msg)) (serve' r e w).
Proof.
  intros V Hm Ho. unfold answered.
  destruct (serve_accepted r e w V) as (q & m & d' & _ & _ & _ & ->).
  simpl. rewrite Hm.
  destruct Ho as [-> | ->]; [reflexivity|].
  destruct (storage_failure e); reflexivity.
Qed.

(** X12. A failed insert always ends in a second write to a response
    that is already sent, in either order and whatever the relay does:
    exactly one "headers already sent" exception escapes.  With a working
    storage none does. *)
Theorem failed_insert_double_response (r : request) (e : env) (w : world) :
  passes_validation r = true ->
  uncaught (serve' r e w) =
  match storage_failure e with
  | None => uncaught w
  | Some _ => (uncaught w ++ [ERR_HTTP_HEADERS_SENT])%list
  end.
Proof.
  intros V.
  destruct (serve_accepted r e w V) as (q & m & d' & _ & _ & _ & ->).
  reflexivity.
Qed.

(** ** Tables *)

(** X6. No request modifies or deletes a row: each table afterwards is
    the table before with rows appended, and one request appends at most
    one row over the three tables. *)
Theorem tables_append_only (r : request) (e : env) (w : world) :
  exists cs ss qs,
    contacts (db (serve' r e w)) = (contacts (db w) ++ cs)%list /\
    subscriptions (db (serve' r e w)) = (subscriptions (db w) ++ ss)%list /\
    inquiries (db (serve' r e w)) = (inquiries (db w) ++ qs)%list /\
    List.length cs + List.length ss + List.length qs <= 1.
Proof.
  destruct (passes_validation r) eqn:V.
  - destruct (serve_accepted r e w V) as (q & m & d' & _ & _ & Hd & ->).
    simpl. destruct (storage_failure e).
    + exists [], [], []. rewrite !app_nil_r. repeat split. simpl. lia.
    + apply (exec_appends _ _ _ _ Hd).
  - rewrite (serve_rejected r e w V). simpl.
    exists [], [], []. rewrite !app_nil_r. repeat split. simpl. lia.
Qed.

(** X7. A write request touches its own table only; the page lookup and
    the catch-all touch none. *)
Theorem write_own_table_only (r : request) (e : env) (w : world) :
  match r with
  | PostContact _ _ _ =>
      subscriptions (db (serve' r e w)) = subscriptions (db w) /\
      inquiries (db (serve' r e w)) = inquiries (db w)
  | PostSubscribe _ =>
      contacts (db (serve' r e w)) = contacts (db w) /\
      inquiries (db (serve' r e w)) = inquiries (db w)
  | PostInquiry _ _ _ _ =>
      contacts (db (serve' r e w)) = contacts (db w) /\
      subscriptions (db (serve' r e w)) = subscriptions (db w)
  | _ => db (serve' r e w) = db w
  end.
Proof.
  destruct (passes_validation r) eqn:V.
  - destruct (serve_accepted r e w V) as (q & m & d' & Hq & _ & Hd & ->).
    simpl.
    destruct r; try discriminate; injection Hq as <-;
      destruct (storage_failure e); try (split; reflexivity);
      simpl in Hd.
    + injection Hd as <-. split; reflexivity.
    + destruct (subscribed _ _); injection Hd as <-; split; reflexivity.
    + injection Hd as <-. split; reflexivity.
  - rewrite (serve_rejected r e w V). destruct r; simpl; auto.
Qed.

(** ** Runs of several requests *)

Lemma serve_unique_emails (r : request) (e : env) (w : world) :
  unique_emails (db w) -> unique_emails (db (serve' r e w)).
Proof.
  intros U. destruct (passes_validation r) eqn:V.
  - destruct (serve_accepted r e w V) as (q & m & d' & _ & _ & Hd & ->).
    simpl. destruct (storage_failure e); [assumption|].
    apply (exec_unique_emails _ _ _ _ Hd U).
  - now rewrite (serve_rejected r e w V).
Qed.

Lemma serve_keys_fresh (r : request) (e : env) (w : world) :
  keys_fresh (db w) -> keys_fresh (db (serve' r e w)).
Proof.
  intros K. destruct (passes_validation r) eqn:V.
  - destruct (serve_accepted r e w V) as (q & m & d' & _ & _ & Hd & ->).
    simpl. destruct (storage_failure e); [assumption|].
    apply (exec_keys_fresh _ _ _ _ Hd K).
  - now rewrite (serve_rejected r e w V).
Qed.

(** X8. Over any run of requests, with any mix of failures, the
    subscriptions table keeps its addresses pairwise distinct: no address
    ever has more than one row. *)
Theorem serve_all_unique_emails (rs : list (request * env)) (w : world) :
  unique_emails (db w) ->
  unique_emails (db (serve_all' rs w)) /\
  forall email, subscription_count email (db (serve_all' rs w)) <= 1.
Proof.
  intros U.
  assert (U' : unique_emails (db (serve_all' rs w))).
  { revert w U. induction rs as [|[r e] rs IH]; intros w U; simpl;
      [assumption|].
    apply IH. now apply serve_unique_emails. }
  split; [assumption|]. intros email. now apply count_at_most_one.
Qed.

(** X9. Over any run of requests the primary keys of each table stay
    pairwise distinct and at most the table's sequence: a key is never
    handed out twice. *)
Theorem serve_all_keys_fresh (rs : list (request * env)) (w : world) :
  keys_fresh (db w) -> keys_fresh (db (serve_all' rs w)).
Proof.
  revert w. induction rs as [|[r e] rs IH]; intros w K; simpl;
    [assumption|].
  apply IH. now apply serve_keys_fresh.
Qed.

(** X10. Over any run of requests, the number of messages handed to the
    transport is the number of requests that passed validation; failed
    inserts and failed dispatches change nothing in that count. *)
Theorem serve_all_mail_count (rs : list (request * env)) (w : world) :
  List.length (outbox (serve_all' rs w)) =
  List.length (outbox w) +
  List.length (filter (fun p => passes_validation (fst p)) rs).
Proof.
  revert w. induction rs as [|[r e] rs IH]; intros w; simpl; [lia|].
  rewrite IH. destruct (passes_validation r) eqn:V.
  - destruct (serve_accepted r e w V) as (q & m & d' & _ & _ & _ & ->).
    simpl. rewrite length_app. simpl. lia.
  - rewrite (serve_rejected r e w V). simpl. lia.
Qed.

(** ** Rows *)

(** X11. The contact endpoint has no duplicate suppression: the same
    valid submission served twice by a working storage leaves two rows
    with the same three values and consecutive keys, whatever the relay
    answered. *)
Theorem contact_resubmission_duplicates (name email message : field)
    (e1 e2 : env) (w : world) :
  passes_validation (PostContact name email message) = true ->
  storage_failure e1 = None -> storage_failure e2 = None ->
  let r := PostContact name email message in
  let w2 := serve' r e2 (serve' r e1 w) in
  exists row1 row2,
    contacts (db w2) = (contacts (db w) ++ [row1; row2])%list /\
    c_name row1 = san (ToString name) /\ c_name row2 = c_name row1 /\
    c_email row1 = san (ToString email) /\ c_email row2 = c_email row1 /\
    c_message row1 = san (ToString message) /\
    c_message row2 = c_message row1 /\
    c_id row2 = S (c_id row1).
Proof.
  intros V H1 H2 r w2. subst w2.
  destruct (serve_accepted r e2 (serve' r e1 w) V)
    as (q2 & m2 & d2 & Hq2 & _ & Hd2 & ->).
  destruct (serve_accepted r e1 w V)
    as (q1 & m1 & d1 & Hq1 & _ & Hd1 & E1).
  rewrite E1 in Hd2. simpl in Hd2. rewrite H1 in Hd2.
  simpl. rewrite H2.
  injection Hq1 as <-. injection Hq2 as <-.
  simpl in Hd1. injection Hd1 as <-.
  simpl in Hd2. injection Hd2 as <-. simpl.
  rewrite <- app_assoc. simpl.
  eexists _, _. split; [reflexivity|]. simpl. repeat split.
Qed.

(** X14. A valid inquiry is stored whenever the storage works, also when
    the dispatch fails and the client is told 500: the table gains one
    row with the four sanitized values, the next key and the time of the
    insert. *)
Theorem inquiry_row_stored (name email product message : field)
    (e : env) (w : world) :
  passes_validation (PostInquiry name email product message) = true ->
  storage_failure e = None ->
  let w' := serve' (PostInquiry name email product message) e w in
  exists row,
    inquiries (db w') = (inquiries (db w) ++ [row])%list /\
    i_name row = san (ToString name) /\
    i_email row = san (ToString email) /\
    i_product row = san (ToString product) /\
    i_message row = san (ToString message) /\
    i_id row = S (inquiries_seq (db w)) /\
    i_created_at row = now e.
Proof.
  intros V H w'. subst w'.
  destruct (serve_accepted _ e w V) as (q & m & d' & Hq & _ & Hd & ->).
  simpl. rewrite H. injection Hq as <-. simpl in Hd. injection Hd as <-.
  simpl. eexists. split; [reflexivity|]. simpl. repeat split.
Qed.

(** X15. With a working storage a valid subscription adds a row exactly
    when its sanitized address is not in the table yet; otherwise the
    rows of the table are left as they were.  Two addresses with the same
    sanitized form count as one. *)
Theorem subscribe_adds_row_iff_new (email : field) (e : env) (w : world) :
  passes_validation (PostSubscribe email) = true ->
  storage_failure e = None ->
  let w' := serve' (PostSubscribe email) e w in
  if subscribed (san (ToString email)) (subscriptions (db w))
  then subscriptions (db w') = subscriptions (db w)
  else exists row,
         subscriptions (db w') = (subscriptions (db w) ++ [row])%list /\
         s_email row = san (ToString email).
Proof.
  intros V H w'. subst w'.
  destruct (serve_accepted _ e w V) as (q & m & d' & Hq & _ & Hd & ->).
  simpl. rewrite H. injection Hq as <-. simpl in Hd.
  destruct (subscribed _ _); injection Hd as <-; [reflexivity|].
  simpl. eexists. split; reflexivity.
Qed.

End Further.

(** ** The address check, continued *)

(** X16. The check is a search, not a full match: whatever is put before
    or after an accepted string, the result is accepted too. *)
Theorem email_check_unanchored (pre s post : string) :
  test email_re s = true -> test email_re (pre ++ s ++ post) = true.
Proof.
  rewrite !RegexFacts.test_spec. intros (a & p & b & -> & H).
  exists (pre ++ a), p, (b ++ post). split; [|assumption].
  now rewrite !append_assoc.
Qed.

(** X17. No string of fewer than five code units passes the check. *)
Theorem email_check_min_length (s : string) :
  String.length s < 5 -> test email_re s = false.
Proof.
  intros L. destruct (test email_re s) eqn:T; [|reflexivity].
  apply test_email_shape in T
    as (pre & u & d & t & post & -> & Hu & Hd & Ht).
  apply run_length in Hu, Hd, Ht.
  rewrite !length_append in L. simpl in L. lia.
Qed.

(** ** The page lookup, continued *)

Lemma own_In (key : string) (o : list (string * string)) (v : string) :
  own key o = Some v -> In (key, v) o.
Proof.
  induction o as [|[k x] o IH]; simpl; [discriminate|].
  destruct (String.eqb key k) eqn:E.
  - apply String.eqb_eq in E. intros H. injection H as ->. subst. now left.
  - auto.
Qed.

(** X18. The lookup answers with a component descriptor exactly for the
    four keys of the table, compared code unit by code unit: no prefix,
    case or trailing-slash variant of a key is accepted. *)
Theorem page_component_iff
    (sanitizeHtml : string -> SanitizeOptions -> string)
    (EMAIL_USER EMAIL_TO : field) (path : field) (c : string)
    (e : env) (w : world) :
  answered 200 (JComponent c)
    (serve sanitizeHtml EMAIL_USER EMAIL_TO (GetPage path) e w) <->
  In (ToString path, c) routes.
Proof.
  unfold answered, serve, handler, page, routes_get. cbv zeta. split.
  - destruct (own (ToString path) routes) as [c'|] eqn:O;
      [|destruct (mem (ToString path) Object_prototype)]; cbn;
      intros H; try discriminate H.
    injection H as ->. exact (own_In _ routes _ O).
  - unfold routes. simpl.
    intros [H|[H|[H|[H|[]]]]]; injection H as <- <-; reflexivity.
Qed.

(** ** Cross-origin configuration *)

Lemma split_cons (sep : ascii) (s : string) :
  exists piece pieces, split sep s = piece :: pieces.
Proof.
  destruct s as [|c s]; simpl; [eauto|].
  destruct (Ascii.eqb c sep); [eauto|].
  destruct (split sep s); eauto.
Qed.

Lemma join_cons (sep a p : string) (ps : list string) :
  join sep (a :: p :: ps) = a ++ sep ++ join sep (p :: ps).
Proof.
  reflexivity.
Qed.

Lemma join_split (sep : ascii) (s : string) :
  join (String sep "") (split sep s) = s.
Proof.
  induction s as [|c s IH]; [reflexivity|].
  cbn [split]. destruct (split_cons sep s) as (p & ps & S).
  rewrite S in *. destruct (Ascii.eqb c sep) eqn:E.
  - apply Ascii.eqb_eq in E. subst c.
    rewrite join_cons, IH. reflexivity.
  - destruct ps as [|p' ps].
    + cbn [join] in *. now subst.
    + rewrite join_cons in *. rewrite <- IH. reflexivity.
Qed.

Lemma split_pieces (sep : ascii) (s : string) :
  Forall (fun piece => contains sep piece = false) (split sep s).
Proof.
  induction s as [|c s IH]; cbn [split]; [repeat constructor|].
  destruct (Ascii.eqb c sep) eqn:E.
  - constructor; [reflexivity | assumption].
  - destruct (split_cons sep s) as (p & ps & S). rewrite S in *.
    inversion IH as [|? ? Hp Hps]; subst.
    constructor; [|assumption].
    cbn [contains]. now rewrite Ascii.eqb_sym, E, Hp.
Qed.

(** X20. When ALLOWED_ORIGINS is set and not empty, the origins handed
    to the CORS middleware are its comma-separated pieces taken as they
    are (nothing is trimmed or dropped): joining them with commas gives
    the variable back, no piece contains a comma, and there is at least
    one piece. *)
Theorem cors_origin_pieces (ALLOWED_ORIGINS : field) :
  falsy ALLOWED_ORIGINS = false ->
  join "," (cors_origin ALLOWED_ORIGINS) = ToString ALLOWED_ORIGINS /\
  Forall (fun o => contains "," o = false) (cors_origin ALLOWED_ORIGINS) /\
  cors_origin ALLOWED_ORIGINS <> [].
Proof.
  intros F. unfold cors_origin. rewrite F.
  split; [apply join_split|]. split; [apply split_pieces|].
  destruct (split_cons "," (ToString ALLOWED_ORIGINS)) as (p & ps & ->).
  discriminate.
Qed.

(** ** The connectivity script *)

(** X21. [testEmail] never rejects: whatever [verify] and [sendMail] do,
    it returns normally.  It hands its one message, addressed to
    test@example.com, to the transport exactly when [verify] succeeded. *)
Theorem testEmail_outcome (EMAIL_USER : field)
    (verify_failure send_failure : option string) (w : world) :
  exists w',
    testEmail EMAIL_USER verify_failure send_failure w = (Normal tt, w') /\
    db w' = db w /\ sent w' = sent w /\ uncaught w' = uncaught w /\
    match verify_failure with
    | Some _ => outbox w' = outbox w
    | None => exists m, outbox w' = (outbox w ++ [m])%list /\
                        to m = "test@example.com"
    end.
Proof.
  destruct verify_failure, send_failure; eexists;
    (split; [reflexivity|]); simpl; repeat split; eauto.
Qed.

(** ** The further properties at concrete requests *)

Lemma bad_request_iff_invalid_witness :
  let e := {| storage_failure := None; smtp_failure := None;
              first := MailFirst; now := 8 |} in
  let r := PostSubscribe (Some "not an address") in
  is_write r = true /\
  ((exists msg,
      answered 400 (JError msg)
        (serve sanitizeHtml_model None None r e initial_world)) <->
   passes_validation r = false).
Proof.
  split; [reflexivity|].
  apply (bad_request_iff_invalid sanitizeHtml_model None None). reflexivity.
Defined.

Lemma validation_message_witness :
  let e := {| storage_failure := None; smtp_failure := None;
              first := InsertFirst; now := 9 |} in
  let r := PostInquiry (Some "Bob") (Some "bob-at-example") (Some "")
                       (Some "Price?") in
  is_write r = true /\ passes_validation r = false /\
  answered 400 (JError "All fields are required")
    (serve sanitizeHtml_model None None r e initial_world).
Proof.
  split; [reflexivity|]. split; [reflexivity|].
  apply (validation_message sanitizeHtml_model None None); reflexivity.
Defined.

Lemma rejected_request_no_effect_witness :
  let e := {| storage_failure := Some "SQLITE_IOERR: disk I/O error";
              smtp_failure := Some "connect ECONNREFUSED";
              first := MailFirst; now := 10 |} in
  let r := PostContact (Some "Alice") (Some "alice@example") (Some "Hello") in
  let w' := serve sanitizeHtml_model None None r e initial_world in
  passes_validation r = false /\
  db w' = db initial_world /\
  outbox w' = outbox initial_world /\
  uncaught w' = uncaught initial_world.
Proof.
  split; [reflexivity|].
  apply (rejected_request_no_effect sanitizeHtml_model None None).
  reflexivity.
Defined.

Lemma notification_envelope_witness :
  let e := {| storage_failure := Some "SQLITE_IOERR: disk I/O error";
              smtp_failure := None; first := InsertFirst; now := 11 |} in
  let r := PostSubscribe (Some "alice@example.com") in
  passes_validation r = true /\
  exists m,
    outbox (serve sanitizeHtml_model (Some "noreply@top10enterprise.com")
              (Some "") r e initial_world)
    = (outbox initial_world ++ [m])%list /\
    from m = Some "noreply@top10enterprise.com" /\
    to m = "zuby@top10enterprise.com".
Proof.
  split; [reflexivity|].
  apply (notification_envelope sanitizeHtml_model
           (Some "noreply@top10enterprise.com") (Some "")).
  reflexivity.
Defined.

Lemma dispatch_failure_answer_witness :
  let e := {| storage_failure := Some "SQLITE_BUSY: database is locked";
              smtp_failure := Some "535 authentication failed";
              first := MailFirst; now := 12 |} in
  let r := PostContact (Some "Alice") (Some "alice@example.com")
                       (Some "Hello") in
  passes_validation r = true /\
  answered 500 (JError "Failed to send email: 535 authentication failed")
    (serve sanitizeHtml_model None None r e initial_world).
Proof.
  split; [reflexivity|].
  apply (dispatch_failure_answer sanitizeHtml_model None None);
    [reflexivity | reflexivity | right; reflexivity].
Defined.

Lemma failed_insert_double_response_witness :
  let e := {| storage_failure := Some "SQLITE_BUSY: database is locked";
              smtp_failure := Some "535 authentication failed";
              first := InsertFirst; now := 13 |} in
  let r := PostInquiry (Some "Bob") (Some "bob@example.com")
                       (Some "Widget") (Some "Price?") in
  passes_validation r = true /\
  uncaught (serve sanitizeHtml_model None None r e initial_world)
  = [ERR_HTTP_HEADERS_SENT].
Proof.
  split; [reflexivity|].
  apply (failed_insert_double_response sanitizeHtml_model None None).
  reflexivity.
Defined.

Lemma serve_all_unique_emails_witness :
  let ok := {| storage_failure := None; smtp_failure := None;
               first := InsertFirst; now := 14 |} in
  let down := {| storage_failure := Some "SQLITE_BUSY: database is locked";
                 smtp_failure := Some "connect ECONNREFUSED";
                 first := MailFirst; now := 15 |} in
  let rs := [ (PostSubscribe (Some "alice@example.com"), ok);
              (PostSubscribe (Some "bob@example.com"), down);
              (PostSubscribe (Some "<b>alice@example.com</b>"), ok);
              (GetPage (Some "/products"), ok) ] in
  let w' := serve_all sanitizeHtml_model None None rs initial_world in
  unique_emails (db initial_world) /\
  unique_emails (db w') /\
  forall email, subscription_count email (db w') <= 1.
Proof.
  assert (U : unique_emails (db initial_world)) by constructor.
  split; [exact U|].
  apply (serve_all_unique_emails sanitizeHtml_model None None). exact U.
Defined.

Lemma serve_all_keys_fresh_witness :
  let ok := {| storage_failure := None; smtp_failure := None;
               first := MailFirst; now := 16 |} in
  let rs := [ (PostContact (Some "Alice") (Some "alice@example.com")
                           (Some "Hello"), ok);
              (PostContact (Some "Alice") (Some "alice@example.com")
                           (Some "Hello"), ok);
              (PostInquiry (Some "Bob") (Some "bob@example.com")
                           (Some "Widget") (Some "Price?"), ok) ] in
  keys_fresh (db initial_world) /\
  keys_fresh (db (serve_all sanitizeHtml_model None None rs initial_world)).
Proof.
  assert (K : keys_fresh (db initial_world))
    by (repeat split; constructor).
  split; [exact K|].
  apply (serve_all_keys_fresh sanitizeHtml_model None None). exact K.
Defined.

Lemma contact_resubmission_duplicates_witness :
  let e1 := {| storage_failure := None;
               smtp_failure := Some "421 service not available";
               first := InsertFirst; now := 17 |} in
  let e2 := {| storage_failure := None; smtp_failure := None;
               first := MailFirst; now := 18 |} in
  let r := PostContact (Some "Alice") (Some "alice@example.com")
                       (Some "Hello") in
  let w2 := serve sanitizeHtml_model None None r e2
              (serve sanitizeHtml_model None None r e1 initial_world) in
  passes_validation r = true /\
  exists row1 row2,
    contacts (db w2) = (contacts (db initial_world) ++ [row1; row2])%list /\
    c_name row1 = "Alice" /\ c_name row2 = c_name row1 /\
    c_email row1 = "alice@example.com" /\ c_email row2 = c_email row1 /\
    c_message row1 = "Hello" /\ c_message row2 = c_message row1 /\
    c_id row2 = S (c_id row1).
Proof.
  split; [reflexivity|].
  apply (contact_resubmission_duplicates sanitizeHtml_model None None
           (Some "Alice") (Some "alice@example.com") (Some "Hello"));
    reflexivity.
Defined.

Lemma inquiry_row_stored_witness :
  let e := {| storage_failure := None;
              smtp_failure := Some "connect ECONNREFUSED";
              first := InsertFirst; now := 19 |} in
  let r := PostInquiry (Some "Bob") (Some "bob@example.com")
                       (Some "<i>Widget</i>") (Some "Price?") in
  let w' := serve sanitizeHtml_model None None r e initial_world in
  passes_validation r = true /\
  exists row,
    inquiries (db w') = (inquiries (db initial_world) ++ [row])%list /\
    i_name row = "Bob" /\
    i_email row = "bob@example.com" /\
    i_product row = "Widget" /\
    i_message row = "Price?" /\
    i_id row = 1 /\
    i_created_at row = 19.
Proof.
  split; [reflexivity|].
  apply (inquiry_row_stored sanitizeHtml_model None None
           (Some "Bob") (Some "bob@example.com") (Some "<i>Widget</i>")
           (Some "Price?"));
    reflexivity.
Defined.

Lemma subscribe_adds_row_iff_new_witness :
  let e := {| storage_failure := None; smtp_failure := None;
              first := InsertFirst; now := 20 |} in
  let r := PostSubscribe (Some "alice@example.com") in
  let w1 := serve sanitizeHtml_model None None r e initial_world in
  let w2 := serve sanitizeHtml_model None None r e w1 in
  passes_validation r = true /\
  subscriptions (db w2) = subscriptions (db w1).
Proof.
  intros e r w1 w2. split; [reflexivity|].
  exact (subscribe_adds_row_iff_new sanitizeHtml_model None None
           (Some "alice@example.com") e w1 eq_refl eq_refl).
Defined.

Lemma email_check_unanchored_witness :
  test email_re "a@b.c" = true /\
  test email_re ("mail me at " ++ "a@b.c" ++ " or call") = true.
Proof.
  split; [reflexivity|].
  apply (email_check_unanchored "mail me at " "a@b.c" " or call").
  reflexivity.
Defined.

Lemma email_check_min_length_witness :
  String.length "a@.c" < 5 /\ test email_re "a@.c" = false.
Proof.
  split; [simpl; lia|].
  apply (email_check_min_length "a@.c"). simpl. lia.
Defined.

Lemma cors_origin_pieces_witness :
  let v := Some "https://a.example, https://b.example," in
  falsy v = false /\
  join "," (cors_origin v) = ToString v /\
  Forall (fun o => contains "," o = false) (cors_origin v) /\
  cors_origin v <> [].
Proof.
  split; [reflexivity|].
  apply (cors_origin_pieces (Some "https://a.example, https://b.example,")).
  reflexivity.
Defined.

(** ** The claim on the name with a script element *)



